(** * Command-queue dispatchers of the stocks menus

    A shallow embedding of the menu controllers of
    [gamestonk_terminal/stocks] (fundamental analysis [fa], its
    Financial Modeling Prep sub-menu [fmp], quantitative analysis [qa]
    and prediction techniques [pred]) and of the Discord due-diligence
    reaction menu.  Each controller owns a queue of pending command
    lines; [switch] dispatches one line, [menu] is the read-dispatch
    loop that recovers from unrecognised commands with a fuzzy match.

    A Python string is modelled by the [string] of its UTF-8 encoding;
    the queue, a Python list of strings, by [list string] (index 0 is
    the head of the list). *)

From Stdlib Require Import String Ascii List Bool Arith NArith Lia.
Import ListNotations.

Local Open Scope string_scope.
Local Open Scope list_scope.
Local Open Scope nat_scope.

(** String concatenation, as [+] on Python strings and in f-strings. *)
Infix "+++" := String.append (right associativity, at level 60).

(** ** Python string operations used by the controllers *)

Module PyStr.

(** The line feed written by [print]. *)
Definition nl : string := String (ascii_of_nat 10) EmptyString.

(** [not s] for a string: only the empty string is falsy. *)
Definition is_empty (s : string) : bool :=
  match s with
  | EmptyString => true
  | String _ _ => false
  end.

Definition truthy (s : string) : bool := negb (is_empty s).

(** [c in s] for a one-character [c]. *)
Fixpoint contains (c : ascii) (s : string) : bool :=
  match s with
  | EmptyString => false
  | String d s' => Ascii.eqb d c || contains c s'
  end.

(** Cutting a string at every character satisfying [p]; the result
    always has one more piece than there are cut points. *)
Fixpoint split_by (p : ascii -> bool) (s : string) : list string :=
  match s with
  | EmptyString => [EmptyString]
  | String c s' =>
      if p c then EmptyString :: split_by p s'
      else match split_by p s' with
           | [] => [String c EmptyString]
           | w :: ws => String c w :: ws
           end
  end.

(** [s.split(sep)] for a one-character separator. *)
Definition split_on (sep : ascii) (s : string) : list string :=
  split_by (fun c => Ascii.eqb c sep) s.

(** [str.isspace] for a character of one byte: tab, line feed,
    vertical tab, form feed, carriage return, the four separators 28-31
    and space. *)
Definition is_space (c : ascii) : bool :=
  let n := nat_of_ascii c in
  ((9 <=? n) && (n <=? 13)) || ((28 <=? n) && (n <=? 32)).

(** [str.isspace] for the other characters, by their UTF-8 bytes:
    U+0085 and U+00A0 take two bytes; U+1680, U+2000 to U+200A, U+2028,
    U+2029, U+202F, U+205F and U+3000 take three. *)
Definition two_byte_space (a b : ascii) : bool :=
  (nat_of_ascii a =? 194)
  && ((nat_of_ascii b =? 133) || (nat_of_ascii b =? 160)).

Definition three_byte_space (a b c : ascii) : bool :=
  let x := nat_of_ascii a in
  let y := nat_of_ascii b in
  let z := nat_of_ascii c in
  ((x =? 225) && (y =? 154) && (z =? 128))
  || ((x =? 226) && (y =? 128)
      && (((128 <=? z) && (z <=? 138)) || (z =? 168) || (z =? 169)
          || (z =? 175)))
  || ((x =? 226) && (y =? 129) && (z =? 159))
  || ((x =? 227) && (y =? 128) && (z =? 128)).

(** Every white space character of more than one byte replaced by a
    space: the places where [split] cuts are then all of one byte. *)
Fixpoint unispace (s : string) : string :=
  match s with
  | EmptyString => EmptyString
  | String a s1 =>
      match s1 with
      | EmptyString => String a EmptyString
      | String b s2 =>
          if two_byte_space a b then String " " (unispace s2)
          else match s2 with
               | EmptyString => String a (unispace s1)
               | String c s3 =>
                   if three_byte_space a b c then String " " (unispace s3)
                   else String a (unispace s1)
               end
      end
  end.

(** [s.split()]: the maximal runs of non-whitespace characters. *)
Definition split_ws (s : string) : list string :=
  filter truthy (split_by is_space (unispace s)).

(** [s.lstrip()], [s.rstrip()] and [s.strip()]. *)
Fixpoint lstrip (s : string) : string :=
  match s with
  | EmptyString => EmptyString
  | String a s1 =>
      if is_space a then lstrip s1
      else match s1 with
           | EmptyString => s
           | String b s2 =>
               if two_byte_space a b then lstrip s2
               else match s2 with
                    | EmptyString => s
                    | String c s3 =>
                        if three_byte_space a b c then lstrip s3 else s
                    end
           end
  end.

Fixpoint rstrip (s : string) : string :=
  match s with
  | EmptyString => EmptyString
  | String a s1 =>
      if is_empty (lstrip s) then EmptyString else String a (rstrip s1)
  end.

Definition strip (s : string) : string := rstrip (lstrip s).

(** [sep.join(l)]. *)
Definition join (sep : string) (l : list string) : string :=
  String.concat sep l.

(** [x in l] for a list or tuple of strings. *)
Definition mem (x : string) (l : list string) : bool :=
  existsb (String.eqb x) l.

End PyStr.

(** ** Characters

    The characters (code points) of a string, each as the string of its
    UTF-8 bytes, and their numbers. *)

Module Utf8.

(** A byte that continues a character. *)
Definition continuation (c : ascii) : bool :=
  let n := nat_of_ascii c in (128 <=? n) && (n <=? 191).

Fixpoint chars (s : string) : list string :=
  match s with
  | EmptyString => []
  | String a s' =>
      match s' with
      | EmptyString => [String a EmptyString]
      | String b _ =>
          if continuation b then
            match chars s' with
            | [] => [String a EmptyString]
            | g :: gs => String a g :: gs
            end
          else String a EmptyString :: chars s'
      end
  end.

Definition byte (c : ascii) : N := N_of_ascii c.

(** The number of a character; 1114112, one more than the last code
    point, for bytes that encode no character. *)
Definition codepoint (ch : string) : N :=
  match list_ascii_of_string ch with
  | [a] => byte a
  | [a; b] => (byte a - 192) * 64 + (byte b - 128)
  | [a; b; c] => (byte a - 224) * 4096 + (byte b - 128) * 64 + (byte c - 128)
  | [a; b; c; d] =>
      (byte a - 240) * 262144 + (byte b - 128) * 4096 + (byte c - 128) * 64
      + (byte d - 128)
  | _ => 1114112
  end%N.

(** The first digits of the runs of ten decimal digits (category Nd) of
    Unicode 14, the version of CPython 3.11; the mathematical digits
    U+1D7CE to U+1D7FF make one run of fifty. *)
Definition digit_runs : list N :=
  [48; 1632; 1776; 1984; 2406; 2534; 2662; 2790; 2918; 3046; 3174; 3302;
   3430; 3558; 3664; 3792; 3872; 4160; 4240; 6112; 6160; 6470; 6608; 6784;
   6800; 6992; 7088; 7232; 7248; 42528; 43216; 43264; 43472; 43504; 43600;
   44016; 65296; 66720; 68912; 69734; 69872; 69942; 70096; 70384; 70736;
   70864; 71248; 71360; 71472; 71904; 72016; 72784; 73040; 73120; 92768;
   92864; 93008; 123200; 123632; 125264; 130032]%N.

Definition decimal (cp : N) : bool :=
  existsb (fun first => (first <=? cp) && (cp <? first + 10))%N digit_runs
  || ((120782 <=? cp) && (cp <=? 120831))%N.

End Utf8.

(** ** The command parser

    Every controller builds [argparse.ArgumentParser(add_help=False)]
    with the single positional argument [cmd] restricted to [CHOICES],
    and calls [parse_known_args] on the whitespace-split line.  The
    function below is that call for such a parser (CPython 3.11):
    a token that starts with [-], is longer than one character and is
    not a negative number is an unknown option and goes to the
    remaining arguments; [--] makes everything after it positional and
    is absorbed by the positional next to it; the first positional
    token is [cmd].  A missing [cmd] or one outside the choices makes
    argparse call [sys.exit(2)], i.e. raise [SystemExit]. *)

Module Argparse.

(** [\d] on one character: a decimal digit of Unicode. *)
Definition is_digit (ch : string) : bool := Utf8.decimal (Utf8.codepoint ch).

Definition all_digits (l : list string) : bool := forallb is_digit l.

(** [\d*\.\d+$] *)
Fixpoint digits_dot_digits (l : list string) : bool :=
  match l with
  | [] => false
  | ch :: l' =>
      if String.eqb ch "." then
        match l' with
        | [] => false
        | _ :: _ => all_digits l'
        end
      else is_digit ch && digits_dot_digits l'
  end.

(** The matcher [^-\d+$|^-\d*\.\d+$] of argparse. *)
Definition negative_number (tok : string) : bool :=
  match tok with
  | String "-"%char rest =>
      let l := Utf8.chars rest in
      (PyStr.truthy rest && all_digits l) || digits_dot_digits l
  | _ => false
  end.

(** A token classified as an (unknown) option string. *)
Definition option_like (tok : string) : bool :=
  match tok with
  | String "-"%char (String _ _) => negb (negative_number tok)
  | _ => false
  end.

Inductive parsed : Type :=
| Parsed (cmd : string) (other_args : list string)
| SysExit.

Definition take_cmd (choices extras : list string) (cmd : string)
           (rest : list string) : parsed :=
  if PyStr.mem cmd choices then Parsed cmd (extras ++ rest) else SysExit.

Fixpoint scan (choices extras args : list string) : parsed :=
  match args with
  | [] => SysExit
  | tok :: rest =>
      if String.eqb tok "--" then
        match rest with
        | [] => SysExit
        | cmd :: rest' => take_cmd choices extras cmd rest'
        end
      else if option_like tok then scan choices (extras ++ [tok]) rest
      else take_cmd choices extras tok
             (match rest with
              | dd :: rest' => if String.eqb dd "--" then rest' else rest
              | [] => rest
              end)
  end.

Definition parse_known_args (choices args : list string) : parsed :=
  scan choices [] args.

End Argparse.

(** ** Closest match

    [difflib.get_close_matches(word, possibilities, n=1, cutoff=0.7)]:
    the possibility with the greatest [SequenceMatcher] ratio among
    those reaching the cutoff, the greater string winning a tie.  The
    ratio is [2*M/T] with [T] the two lengths added and [M] the
    characters in the matching blocks, found by taking the longest
    common block (the earliest in the first sequence, then in the
    second) and recursing on both sides of it; the elements compared
    are the characters of the strings.  The ratio is compared exactly,
    as the quotient of two naturals.  For a word of 200 characters or
    more [difflib] sets its frequent characters aside; no possibility
    of fewer than 108 characters can then reach the cutoff, with or
    without them, since [M] is at most the length of the possibility. *)

Module Difflib.

Definition seq := list string.

(** One row of the table of common-suffix lengths: [row a_i b prev]
    gives, for every [j], the length of the longest block ending at
    [a_i] and [b_j], from the row [prev] of the previous [i]. *)
Fixpoint row (x : string) (b : seq) (diag : nat) (prev : list nat) : list nat :=
  match b with
  | [] => []
  | y :: b' =>
      let k := if String.eqb x y then S diag else 0 in
      k :: row x b' (hd 0 prev) (tl prev)
  end.

(** The best block so far: start in [a], start in [b], size. *)
Definition block : Type := nat * nat * nat.

Fixpoint best_in_row (i j : nat) (r : list nat) (best : block) : block :=
  match r with
  | [] => best
  | k :: r' =>
      let '(_, _, size) := best in
      best_in_row i (S j) r'
        (if size <? k then (S i - k, S j - k, k) else best)
  end.

Fixpoint longest_from (i : nat) (a b : seq) (prev : list nat)
         (best : block) : block :=
  match a with
  | [] => best
  | x :: a' =>
      let r := row x b 0 prev in
      longest_from (S i) a' b r (best_in_row i 0 r best)
  end.

Definition find_longest_match (a b : seq) : block :=
  longest_from 0 a b [] (0, 0, 0).

(** Total size of the matching blocks. *)
Fixpoint matches (fuel : nat) (a b : seq) : nat :=
  match fuel with
  | 0 => 0
  | S fuel' =>
      let '(i, j, k) := find_longest_match a b in
      match k with
      | 0 => 0
      | _ => matches fuel' (firstn i a) (firstn j b) + k
             + matches fuel' (skipn (i + k) a) (skipn (j + k) b)
      end
  end.

(** Numerator and denominator of [SequenceMatcher(None, a, b).ratio()]. *)
Definition ratio (a b : string) : nat * nat :=
  let la := Utf8.chars a in
  let lb := Utf8.chars b in
  match List.length la + List.length lb with
  | 0 => (1, 1)
  | t => (2 * matches (S (List.length la)) la lb, t)
  end.

(** [ratio >= 0.7] *)
Definition reaches_cutoff (r : nat * nat) : bool :=
  7 * snd r <=? 10 * fst r.

(** [r1 < r2] and [r1 = r2] on ratios. *)
Definition ratio_ltb (r1 r2 : nat * nat) : bool :=
  fst r1 * snd r2 <? fst r2 * snd r1.
Definition ratio_eqb (r1 r2 : nat * nat) : bool :=
  fst r1 * snd r2 =? fst r2 * snd r1.

(** The first greatest pair (ratio, possibility), as [max] finds it. *)
Fixpoint best_of (scored : list (nat * nat * string))
         (cur : nat * nat * string) : nat * nat * string :=
  match scored with
  | [] => cur
  | (r, x) :: rest =>
      let '(rc, xc) := cur in
      if ratio_ltb rc r || (ratio_eqb rc r && String.ltb xc x)
      then best_of rest (r, x) else best_of rest cur
  end.

(** The list returned for [n=1]: empty or the single closest match. *)
Definition get_close_matches (word : string) (possibilities : list string)
  : list string :=
  let scored :=
    filter (fun rx => reaches_cutoff (fst rx))
           (map (fun x => (ratio x word, x)) possibilities) in
  match scored with
  | [] => []
  | first :: rest => [snd (best_of rest first)]
  end.

End Difflib.

(** ** The menu controllers *)

Module Menu.

Import PyStr.

(** The four controller classes. *)
Inductive menu_id : Type := FA | FMP | QA | PRED.

(** The universal part of every [CHOICES] list. *)
Definition CHOICES_UNIVERSAL : list string :=
  ["cls"; "home"; "h"; "?"; "help"; "q"; "quit"; ".."; "exit"; "r"; "reset"].

Definition CHOICES_COMMANDS (m : menu_id) : list string :=
  match m with
  | FA => ["load"; "analysis"; "score"; "warnings"; "data"; "income";
           "balance"; "cash"; "mgmt"; "info"; "shrs"; "sust"; "cal"; "web";
           "hq"; "overview"; "key"; "income"; "balance"; "cash"; "divs";
           "earnings"; "fraud"]
  | FMP => ["profile"; "quote"; "enterprise"; "dcf"; "income"; "balance";
            "cash"; "metrics"; "ratios"; "growth"]
  | QA => ["load"; "pick"; "raw"; "summary"; "hist"; "cdf"; "bw"; "rolling";
           "decompose"; "cusum"; "acf"; "spread"; "quantile"; "skew";
           "kurtosis"; "normality"; "qqplot"; "unitroot"; "goodness";
           "unitroot"; "capm"]
  | PRED => ["load"; "pick"; "ets"; "knn"; "regression"; "arima"; "mlp";
             "rnn"; "lstm"; "conv1d"; "mc"]
  end.

Definition CHOICES_MENUS (m : menu_id) : list string :=
  match m with
  | FA => ["fmp"]
  | _ => []
  end.

Definition CHOICES (m : menu_id) : list string :=
  CHOICES_UNIVERSAL ++ CHOICES_COMMANDS m ++ CHOICES_MENUS m.

(** The names of [CHOICES] with a [call_] method: all but [goodness]
    of [qa], for which [getattr] gives the default, a function that
    returns a text and does nothing. *)
Definition has_handler (m : menu_id) (cmd : string) : bool :=
  match m with
  | QA => negb (String.eqb cmd "goodness")
  | _ => true
  end.

(** The command that enters the menu from its parent. *)
Definition menu_name (m : menu_id) : string :=
  match m with
  | FA => "fa" | FMP => "fmp" | QA => "qa" | PRED => "pred"
  end.

(** The location shown in the prompt of the menu. *)
Definition location (m : menu_id) : string :=
  match m with
  | FA => "/stocks/fa/"
  | FMP => "/stocks/fa/fmp/"
  | QA => "/stocks/qa/"
  | PRED => "/stocks/pred/"
  end.

(** The menu named by the "doesn't exist" message. *)
Definition reported_menu (m : menu_id) : string :=
  match m with
  | FA => "/stocks/fa"
  | QA => "/stocks/qa"
  | FMP | PRED => "/stocks/options"
  end.

(** Nesting depth of a menu: the number of menus on its location path. *)
Definition depth (m : menu_id) : nat :=
  List.length (filter truthy (split_on "/" (location m))).

(** What the terminal shows, oldest first.  The help text, the prompt
    and the echoed location depend on terminal styling and are kept as
    events; [Print] carries the exact characters written. *)
Inductive event : Type :=
| Print (text : string)
| PrintHelp (m : menu_id) (ticker : string)
| Clear
| Prompt (m : menu_id)
| Echo (m : menu_id) (line : string).

(** The terminal: the lines the user will type and what was shown. *)
Record world : Type := World {
  stdin : list string;
  stdout : list event
}.

Definition emit (e : event) (w : world) : world :=
  World (stdin w) (stdout w ++ [e]).

(** [print(text)] and [print(text, end="")]. *)
Definition print (text : string) (w : world) : world :=
  emit (Print (text +++ nl)) w.
Definition print_noend (text : string) (w : world) : world :=
  emit (Print text) w.

Inductive exn : Type :=
| SystemExit
| EOFError
| OtherError (what : string).

Section Controllers.

(** The loaded price history, a pandas data frame. *)
Variable Frame : Type.

(** The menu context and the command queue of a controller. *)
Record controller : Type := Controller {
  ticker : string;
  start : string;
  interval : string;
  suffix : string;
  target : string;
  stock : option Frame;
  queue : list string
}.

Definition set_queue (q : list string) (c : controller) : controller :=
  Controller (ticker c) (start c) (interval c) (suffix c) (target c)
             (stock c) q.

(** [self.queue.insert(0, cmd)] *)
Definition insert0 (cmd : string) (c : controller) : controller :=
  set_queue (cmd :: queue c) c.

(** How a call ends: it returns, it raises, or (in the model only)
    the sub-menu it entered was still running when the fuel ran out. *)
Inductive outcome : Type :=
| Returned (c : controller) (w : world)
| Raised (e : exn) (c : controller) (w : world)
| Unfinished.

(** How a menu ends. *)
Inductive menu_result : Type :=
| Exited (q : list string) (w : world)
| Crashed (e : exn) (w : world)
| Running.

(** The [call_] methods of the names of [CHOICES_COMMANDS]: argument
    parsing, data providers and views, which are outside the
    controllers. *)
Variable collaborator :
  menu_id -> string -> list string -> controller -> world -> outcome.

(** The preparation of the data frame in the constructors of [qa]
    and [pred] (returns, log returns, renamed column, no NaN rows). *)
Variable with_returns : Frame -> Frame.

(** *** Constructors *)

Definition given_queue (q : option (list string)) : list string :=
  match q with
  | Some (x :: l) => x :: l
  | _ => []
  end.

Definition init_fa (tk st iv sfx : string) (q : option (list string))
  : controller :=
  Controller (if truthy sfx then tk +++ "." +++ sfx else tk) st iv sfx ""
             None (given_queue q).

Definition init_fmp (tk st iv : string) (q : option (list string))
  : controller :=
  Controller tk st iv "" "" None (given_queue q).

Definition init_qa (tk st iv : string) (df : Frame)
           (q : option (list string)) : controller :=
  Controller tk st iv "" "Returns" (Some (with_returns df)) (given_queue q).

Definition init_pred (tk st iv : string) (df : Frame)
           (q : option (list string)) : controller :=
  Controller tk st iv "" "AdjClose" (Some (with_returns df)) (given_queue q).

(** *** Universal commands *)

Definition call_cls (c : controller) (w : world) : outcome :=
  Returned c (emit Clear w).

Definition call_home (m : menu_id) (c : controller) (w : world) : outcome :=
  match m with
  | FMP => Returned (insert0 "quit" (insert0 "quit" (insert0 "quit" c))) w
  | _ => Returned (insert0 "quit" (insert0 "quit" c)) w
  end.

Definition call_help (m : menu_id) (c : controller) (w : world) : outcome :=
  Returned c (emit (PrintHelp m (ticker c)) w).

Definition call_quit (m : menu_id) (c : controller) (w : world) : outcome :=
  match m with
  | FMP => Returned (insert0 "quit" c) w
  | _ => Returned (insert0 "quit" c) (print "" w)
  end.

Definition call_exit (m : menu_id) (c : controller) (w : world) : outcome :=
  match m with
  | FMP => Returned (insert0 "quit" (insert0 "quit" (insert0 "quit"
                       (insert0 "quit" c)))) w
  | _ => Returned (insert0 "quit" (insert0 "quit" (insert0 "quit" c))) w
  end.

(** [if self.ticker: self.queue.insert(0, f"load {self.ticker}")] *)
Definition insert_load (c : controller) : controller :=
  if truthy (ticker c) then insert0 ("load " +++ ticker c) c else c.

Definition call_reset (m : menu_id) (c : controller) (w : world) : outcome :=
  match m with
  | FMP =>
      let c := insert0 "fmp" c in
      let c := insert0 "fa" c in
      let c := insert_load c in
      let c := insert0 "stocks" c in
      let c := insert0 "reset" c in
      let c := insert0 "quit" c in
      let c := insert0 "quit" c in
      let c := insert0 "quit" c in
      Returned c w
  | _ =>
      let c := insert0 (menu_name m) c in
      let c := insert_load c in
      let c := insert0 "stocks" c in
      let c := insert0 "reset" c in
      let c := insert0 "quit" c in
      let c := insert0 "quit" c in
      Returned c w
  end.

(** *** [switch] *)

(** [for cmd in actions[1:][::-1]: if cmd: self.queue.insert(0, cmd)],
    given [actions[1:]]. *)
Definition enqueue_actions (rest : list string) (c : controller)
  : controller :=
  fold_left (fun c cmd => if truthy cmd then insert0 cmd c else c)
            (rev rest) c.

(** The redirection of the short names. *)
Definition resolve_alias (cmd : string) : string :=
  if truthy cmd then
    if mem cmd [".."; "q"] then "quit"
    else if mem cmd ["?"; "h"] then "help"
    else if String.eqb cmd "r" then "reset"
    else cmd
  else cmd.

Section Turn.

(** The sub-menu entered by [call_fmp] of [fa]; the loop below ties
  the knot. *)
Variable enter_fmp : controller -> world -> menu_result.

Definition call_fmp (c : controller) (w : world) : outcome :=
match enter_fmp (init_fmp (ticker c) (start c) (interval c)
                          (Some (queue c))) w with
| Exited q w' => Returned (set_queue q c) w'
| Crashed e w' => Raised e c w'
| Running => Unfinished
end.

(** [getattr(self, "call_" + cmd, ...)(other_args)] *)
Definition call (m : menu_id) (cmd : string) (other_args : list string)
         (c : controller) (w : world) : outcome :=
if String.eqb cmd "cls" then call_cls c w
else if String.eqb cmd "home" then call_home m c w
else if String.eqb cmd "help" then call_help m c w
else if String.eqb cmd "quit" then call_quit m c w
else if String.eqb cmd "exit" then call_exit m c w
else if String.eqb cmd "reset" then call_reset m c w
else if mem cmd (CHOICES_MENUS m) then call_fmp c w
else if has_handler m cmd then collaborator m cmd other_args c w
else Returned c w.

(** The part of [switch] after the navigation slash: parse the line,
  redirect the short names and call the handler. *)
Definition dispatch (m : menu_id) (line : string) (c : controller)
         (w : world) : outcome :=
match Argparse.parse_known_args (CHOICES m) (split_ws line) with
| Argparse.SysExit => Raised SystemExit c w
| Argparse.Parsed cmd other_args =>
    call m (resolve_alias cmd) other_args c w
end.

Definition switch (m : menu_id) (an_input : string) (c : controller)
         (w : world) : outcome :=
if is_empty an_input then Returned c (print "" w)
else if contains "/" an_input then
  let actions := split_on "/" an_input in
  let line := if is_empty (hd "" actions) then "home"
              else hd "" actions in
  dispatch m line (enqueue_actions (tl actions) c) w
else dispatch m an_input c w.

(** *** The menu loop *)

(** The tokens that leave a menu when they head the queue. *)
Definition exit_tokens : list string := ["q"; ".."; "quit"].

(** One pass through [while True] either leaves the menu, goes round
  again with the controller and the local [an_input], or lets an
  exception escape. *)
Inductive step_result : Type :=
| Exit (q : list string) (w : world)
| Continue (c : controller) (an_input : string) (w : world)
| Crash (e : exn) (w : world)
| Pending.

Definition doesnt_exist (m : menu_id) (an_input : string) : string :=
nl +++ "The command '" +++ an_input +++ "' doesn't exist on the "
   +++ reported_menu m +++ " menu.".

Definition replacing_by (line : string) : string :=
" Replacing by '" +++ line +++ "'.".

(** The word handed to [get_close_matches]. *)
Definition name_token (an_input : string) : string :=
if contains " " an_input then hd "" (split_on " " an_input)
else an_input.

(** [f"{similar_cmd[0]} {' '.join(an_input.split(' ')[1:])}"] *)
Definition with_tail (similar an_input : string) : string :=
similar +++ " " +++ join " " (tl (split_on " " an_input)).

(** The [except SystemExit] clause of [fa], [fmp] and [pred]. *)
Definition recover_fa (m : menu_id) (an_input : string) (c : controller)
         (w : world) : step_result :=
let w := print_noend (doesnt_exist m an_input) w in
match Difflib.get_close_matches (name_token an_input) (CHOICES m) with
| similar :: _ =>
    let candidate_input :=
      if contains " " an_input then with_tail similar an_input
      else similar in
    if String.eqb candidate_input an_input then
      Continue (set_queue [] c) "" (print nl w)
    else
      Continue (insert0 an_input c) an_input
               (print (replacing_by an_input) w)
| [] => Continue (set_queue [] c) "" (print nl w)
end.

(** The [except SystemExit] clause of [qa]. *)
Definition recover_qa (an_input : string) (c : controller) (w : world)
: step_result :=
let w := print_noend (doesnt_exist QA an_input) w in
match Difflib.get_close_matches (name_token an_input) (CHOICES QA) with
| similar :: _ =>
    if contains " " an_input then
      let candidate_input := with_tail similar an_input in
      if String.eqb candidate_input an_input then
        Continue (set_queue [] c) "" (print nl w)
      else
        Continue (insert0 candidate_input c) candidate_input
                 (print (replacing_by candidate_input) w)
    else
      Continue (insert0 similar c) similar
               (print (replacing_by similar) w)
| [] => Continue c an_input (print nl w)
end.

Definition recover (m : menu_id) (an_input : string) (c : controller)
         (w : world) : step_result :=
match m with
| QA => recover_qa an_input c w
| _ => recover_fa m an_input c w
end.

(** The [try] statement: process the input command. *)
Definition turn (m : menu_id) (an_input : string) (c : controller)
         (w : world) : step_result :=
match switch m an_input c w with
| Returned c' w' => Continue c' an_input w'
| Raised SystemExit c' w' => recover m an_input c' w'
| Raised e _ w' => Crash e w'
| Unfinished => Pending
end.

(** The body of [while True]. *)
Definition menu_step (m : menu_id) (c : controller) (an_input : string)
         (w : world) : step_result :=
match queue c with
| head :: _ =>
    if mem head exit_tokens then
      let w := match m with QA => print "" w | _ => w end in
      match queue c with
      | _ :: _ :: _ => Exit (tl (queue c)) w
      | _ => Exit [] w
      end
    else
      let an_input := head in
      let c := set_queue (tl (queue c)) c in
      let w :=
        if truthy an_input
           && mem (hd "" (split_on " " an_input)) (CHOICES_COMMANDS m)
        then emit (Echo m an_input) w else w in
      turn m an_input c w
| [] =>
    let w := if String.eqb an_input "HELP_ME"
             then emit (PrintHelp m (ticker c)) w else w in
    let w := emit (Prompt m) w in
    match stdin w with
    | line :: rest => turn m line c (World rest (stdout w))
    | [] => Crash EOFError w
    end
end.

End Turn.

(** The loop, for at most [fuel] passes in this menu and in the
    sub-menu it enters. *)
Fixpoint menu_loop (fuel : nat) (m : menu_id) (c : controller)
         (an_input : string) (w : world) : menu_result :=
  match fuel with
  | 0 => Running
  | S fuel' =>
      match menu_step (fun c' w' => menu_loop fuel' FMP c' "HELP_ME" w')
                      m c an_input w with
      | Exit q w' => Exited q w'
      | Continue c' an_input' w' => menu_loop fuel' m c' an_input' w'
      | Crash e w' => Crashed e w'
      | Pending => Running
      end
  end.

(** [menu(...)]: a controller is built and the loop starts with the
    input that shows the help once. *)
Definition menu (fuel : nat) (m : menu_id) (c : controller) (w : world)
  : menu_result :=
  menu_loop fuel m c "HELP_ME" w.

End Controllers.

Arguments Controller {Frame}.
Arguments ticker {Frame}.
Arguments start {Frame}.
Arguments interval {Frame}.
Arguments suffix {Frame}.
Arguments target {Frame}.
Arguments stock {Frame}.
Arguments queue {Frame}.
Arguments set_queue {Frame}.
Arguments insert0 {Frame}.
Arguments insert_load {Frame}.
Arguments enqueue_actions {Frame}.
Arguments Returned {Frame}.
Arguments Raised {Frame}.
Arguments Unfinished {Frame}.
Arguments Exit {Frame}.
Arguments Continue {Frame}.
Arguments Crash {Frame}.
Arguments Pending {Frame}.
Arguments call_cls {Frame}.
Arguments call_home {Frame}.
Arguments call_help {Frame}.
Arguments call_quit {Frame}.
Arguments call_exit {Frame}.
Arguments call_reset {Frame}.
Arguments call_fmp {Frame}.
Arguments call {Frame}.
Arguments dispatch {Frame}.
Arguments switch {Frame}.
Arguments recover_fa {Frame}.
Arguments recover_qa {Frame}.
Arguments recover {Frame}.
Arguments turn {Frame}.
Arguments menu_step {Frame}.
Arguments menu_loop {Frame}.
Arguments menu {Frame}.

(** A collaborator that does nothing, and a terminal with no input. *)
Definition idle : menu_id -> string -> list string -> controller unit ->
                  world -> outcome unit :=
  fun _ _ _ c w => Returned c w.

Definition silent : world := World [] [].

Definition no_submenu : controller unit -> world -> menu_result :=
  fun _ _ => Running.

(** A collaborator that only shows which command it was called for. *)
Definition recording : menu_id -> string -> list string -> controller unit ->
                       world -> outcome unit :=
  fun _ cmd _ c w => Returned c (print ("ran " +++ cmd) w).

(** A collaborator that ends in [SystemExit]. *)
Definition exiting : menu_id -> string -> list string -> controller unit ->
                     world -> outcome unit :=
  fun _ _ _ c w => Raised SystemExit c w.

(** A controller of the concrete examples: ticker AAPL and a queue. *)
Definition aapl (q : list string) : controller unit :=
  Controller "AAPL" "2021-01-01" "1440min" "" "" None q.

(** *** Notions used to state the properties *)

(** The reload entry of [reset]. *)
Definition load_entry (tk : string) : list string :=
  if truthy tk then ["load " +++ tk] else [].

(** The spec's reading of [reset]: the [quit] tokens, [reset],
    [stocks], the reload and the name of the menu itself. *)
Definition claimed_reset (m : menu_id) (tk : string) : list string :=
  repeat "quit" (depth m) ++ ["reset"; "stocks"] ++ load_entry tk
         ++ [menu_name m].

(** The menus entered after [stocks] to come back to the menu. *)
Definition reentry_path (m : menu_id) : list string :=
  match m with
  | FMP => ["fa"; "fmp"]
  | _ => [menu_name m]
  end.

(** The line the closest match stands for: the match with the
    argument tail of the input, [None] without a close match. *)
Definition candidate_line (m : menu_id) (an_input : string) : option string :=
  match Difflib.get_close_matches (name_token an_input) (CHOICES m) with
  | similar :: _ =>
      Some (if contains " " an_input then with_tail similar an_input
            else similar)
  | [] => None
  end.

(** What the terminal shows when a menu is left. *)
Definition leaving (m : menu_id) (w : world) : world :=
  match m with
  | QA => print "" w
  | _ => w
  end.

(** Number of "Replacing by" notices for [line] in what was shown. *)
Definition notices (line : string) (shown : list event) : nat :=
  List.length
    (filter (fun e => match e with
                      | Print text => String.eqb text (replacing_by line +++ nl)
                      | _ => false
                      end) shown).

End Menu.

(** ** The Discord due-diligence reaction menu

    [DueDiligenceCommands.due_diligence] sends the menu, adds one
    reaction per entry, waits for a reaction of the author and runs the
    selected command.  The chat is modelled by what the bot did to it:
    the embeds it sent and its own reactions on the menu message.  The
    events of the waiting window are the [reaction_add] events that
    arrive before [cfg.MENU_TIMEOUT] expires. *)

Module DueDiligence.

Import PyStr.

Definition of_bytes (l : list nat) : string :=
  string_of_list_ascii (map ascii_of_nat l).

(** The keycap emoji of a digit: the digit, U+FE0F, U+20E3. *)
Definition keycap (d : nat) : string :=
  of_bytes [48 + d; 239; 184; 143; 226; 131; 163].

Definition emoji_list : list string :=
  [keycap 0; keycap 1; keycap 2; keycap 3; keycap 4; keycap 5; keycap 6].

Inductive user : Type :=
| BotUser
| Author
| Member (id : nat).

Definition user_eqb (u v : user) : bool :=
  match u, v with
  | BotUser, BotUser => true
  | Author, Author => true
  | Member i, Member j => i =? j
  | _, _ => false
  end.

Definition same_reaction (r1 r2 : string * user) : bool :=
  String.eqb (fst r1) (fst r2) && user_eqb (snd r1) (snd r2).

Record embed : Type := Embed {
  title : string;
  description : string
}.

(** A message of the channel with the reactions placed on it. *)
Record message : Type := Message {
  content : embed;
  reactions : list (string * user)
}.

Record chat : Type := Chat {
  channel : list message;
  console : list string
}.

(** Applying [f] to the message at position [i]. *)
Fixpoint modify (i : nat) (f : message -> message) (l : list message)
  : list message :=
  match l, i with
  | [], _ => []
  | msg :: l', 0 => f msg :: l'
  | msg :: l', S i' => msg :: modify i' f l'
  end.

(** [msg = await ctx.send(embed=embed)]: the new message, without
    reactions, is the last of the channel. *)
Definition send (e : embed) (s : chat) : nat * chat :=
  (List.length (channel s), Chat (channel s ++ [Message e []]) (console s)).

(** [await msg.add_reaction(emoji)], a reaction of the bot. *)
Definition add_reaction (msg : nat) (emoji : string) (s : chat) : chat :=
  Chat (modify msg
          (fun m => Message (content m) (reactions m ++ [(emoji, BotUser)]))
          (channel s))
       (console s).

(** [await msg.remove_reaction(emoji, member)] *)
Definition remove_reaction (msg : nat) (emoji : string) (member : user)
           (s : chat) : chat :=
  Chat (modify msg
          (fun m => Message (content m)
                      (filter (fun r => negb (same_reaction r (emoji, member)))
                              (reactions m)))
          (channel s))
       (console s).

Definition log (line : string) (s : chat) : chat :=
  Chat (channel s) (console s ++ [line]).

Inductive raised : Type :=
| TimeoutError
| Failure (what : string).

Inductive result : Type :=
| Done (s : chat)
| Failed (e : raised) (s : chat).

Definition menu_text (ticker : string) : string :=
  keycap 0 +++ " !stocks.dd.analyst " +++ ticker +++ nl +++
  keycap 1 +++ " !stocks.dd.pt " +++ ticker +++ " <RAW> <DATE_START>" +++ nl +++
  keycap 2 +++ " !stocks.dd.est " +++ ticker +++ nl +++
  keycap 3 +++ " !stocks.dd.sec " +++ ticker +++ nl +++
  keycap 4 +++ " !stocks.dd.supplier " +++ ticker +++ nl +++
  keycap 5 +++ " !stocks.dd.customer " +++ ticker +++ nl +++
  keycap 6 +++ " !stocks.dd.arktrades " +++ ticker.

Definition menu_embed (ticker : string) : embed :=
  Embed "Stocks: Due Diligence (DD) Menu" (menu_text ticker).

Definition timeout_embed : embed :=
  Embed "TIMEOUT Stocks: Due Diligence (DD) Menu"
        ("Error timeout - you snooze you lose! "
           +++ of_bytes [240; 159; 152; 139]).

(** [check(reaction, user)] *)
Definition check (ev : string * user) : bool :=
  user_eqb (snd ev) Author && mem (fst ev) emoji_list.

(** [gst_bot.wait_for("reaction_add", timeout=..., check=check)] on
    the events of the window: the first accepted one, or a timeout. *)
Definition wait_for (events : list (string * user)) : option (string * user) :=
  find check events.

(** [for emoji in emoji_list: await msg.add_reaction(emoji)] *)
Definition add_reactions (msg : nat) (s : chat) : chat :=
  fold_left (fun s emoji => add_reaction msg emoji s) emoji_list s.

(** [for emoji in emoji_list: await msg.remove_reaction(emoji, ctx.bot.user)] *)
Definition remove_reactions (msg : nat) (s : chat) : chat :=
  fold_left (fun s emoji => remove_reaction msg emoji BotUser s) emoji_list s.

Section Cog.

(** [cfg.DEBUG] *)
Variable DEBUG : bool.

(** The seven commands of the menu, by their position: analyst, pt,
    est, sec, supplier, customer, arktrades. *)
Variable command : nat -> string -> chat -> result.

Definition debug (line : string) (s : chat) : chat :=
  if DEBUG then log line s else s.

(** The [if]/[elif] chain over [reaction.emoji]. *)
Fixpoint selected (emoji : string) (n : nat) (entries : list string)
         (ticker : string) (s : chat) : result :=
  match entries with
  | [] => Done s
  | e :: entries' =>
      if String.eqb emoji e then
        command n ticker
                (debug ("Reaction selected: "
                          +++ String (ascii_of_nat (48 + n)) "") s)
      else selected emoji (S n) entries' ticker s
  end.

(** The [except asyncio.TimeoutError] clause. *)
Definition on_timeout (msg : nat) (s : chat) : result :=
  Done (snd (send timeout_embed (remove_reactions msg s))).

(** The command [stocks.dd].  With an empty ticker an error embed is
    built and then replaced by the menu embed without being sent. *)
Definition due_diligence (ticker : string)
           (events : list (string * user)) (s : chat) : result :=
  let s := debug "!stocks.dd" s in
  let '(msg, s) := send (menu_embed ticker) s in
  let s := add_reactions msg s in
  match wait_for events with
  | Some (emoji, _) =>
      match selected emoji 0 emoji_list ticker s with
      | Done s' => Done (remove_reactions msg s')
      | Failed TimeoutError s' => on_timeout msg s'
      | Failed e s' => Failed e s'
      end
  | None => on_timeout msg s
  end.

End Cog.

End DueDiligence.

(** ** Loading a ticker

    The parts of [call_load] of [fa], [qa] and [pred] that do not
    depend on the data provider: the default flag put in front of the
    arguments and the ticker kept after a successful load. *)

Module Load.

Import PyStr.

(** [if other_args and "-t" not in other_args and "-h" not in other_args:
    other_args.insert(0, "-t")] *)
Definition default_flag (other_args : list string) : list string :=
  match other_args with
  | [] => other_args
  | _ :: _ =>
      if negb (mem "-t" other_args) && negb (mem "-h" other_args)
      then "-t" :: other_args
      else other_args
  end.





End Load.

(** ** The custom presets of the screener

    [presets_custom_command] of [discordbot/stocks/screener] reads the
    head of every preset file, up to the line [[General]], and sends an
    embed with one entry per preset; any exception ends in an error
    embed instead.  A file is what reading it gives: the lines that the
    iteration yields and, when reading fails on the way (bytes that are
    no UTF-8, for one), the text of the exception raised after them; a
    file that cannot be opened gives the text of its [OSError]. *)

Module Presets.

Import PyStr DueDiligence.

(** [s.split(sep)] for a separator of one character or more; [skip]
    counts the characters of a separator still to pass over. *)
Fixpoint split_str_from (sep : string) (skip : nat) (s : string) : list string :=
  match s with
  | EmptyString => [EmptyString]
  | String c s' =>
      match skip with
      | S k => split_str_from sep k s'
      | 0 =>
          if String.prefix sep s
          then EmptyString :: split_str_from sep (String.length sep - 1) s'
          else match split_str_from sep 0 s' with
               | [] => [String c EmptyString]
               | w :: ws => String c w :: ws
               end
      end
  end.

Definition split_str (sep s : string) : list string := split_str_from sep 0 s.

(** [s.replace(ch, "")] for a one-character [ch]. *)
Fixpoint remove (ch : ascii) (s : string) : string :=
  match s with
  | EmptyString => EmptyString
  | String c s' => if Ascii.eqb c ch then remove ch s' else String c (remove ch s')
  end.

Inductive opened : Type :=
| Lines (lines : list string)
| Broken (lines : list string) (text : string)
| OSError (text : string).

(** What [except Exception as e] catches, with [str(e)]. *)
Inductive failure : Type :=
| CannotOpen (text : string)
| CannotRead (text : string)
| IndexError.

Definition failure_text (e : failure) : string :=
  match e with
  | CannotOpen text => text
  | CannotRead text => text
  | IndexError => "list index out of range"
  end.

(** The inner loop: the stripped lines before [[General]], glued;
    [ending] is the exception that reading raises after the lines. *)
Fixpoint preset_line (lines : list string) (ending : option string)
  : string + failure :=
  match lines with
  | [] =>
      match ending with
      | None => inl EmptyString
      | Some text => inr (CannotRead text)
      end
  | line :: rest =>
      if String.eqb (strip line) "[General]" then inl EmptyString
      else match preset_line rest ending with
           | inl glued => inl (strip line +++ glued)
           | inr e => inr e
           end
  end.

(** [f"**{preset}:** *{preset_line.split('Description: ')[1].replace('#', '')}*\n"] *)
Definition entry_text (preset glued : string) : string + failure :=
  match split_str "Description: " glued with
  | _ :: text :: _ =>
      inl ("**" +++ preset +++ ":** *" +++ remove "#" text +++ "*" +++ nl)
  | _ => inr IndexError
  end.

(** The entry of a preset from what reading its file gives. *)
Definition entry (preset : string) (lines : list string)
           (ending : option string) : string + failure :=
  match preset_line lines ending with
  | inl glued => entry_text preset glued
  | inr e => inr e
  end.

Section Screener.

(** [cfg.DEBUG], [so.presets_path], [so.presets] and the files. *)
Variable DEBUG : bool.
Variable presets_path : string.
Variable presets : list string.
Variable files : string -> opened.

(** One pass of [for preset in so.presets]. *)
Definition add_entry (description : string) (preset : string)
  : string + failure :=
  let read :=
    match files (presets_path +++ preset +++ ".ini") with
    | OSError text => inr (CannotOpen text)
    | Lines lines => entry preset lines None
    | Broken lines text => entry preset lines (Some text)
    end in
  match read with
  | inl e => inl (description +++ e)
  | inr f => inr f
  end.

Fixpoint describe_all (description : string) (todo : list string)
  : string + failure :=
  match todo with
  | [] => inl description
  | preset :: todo' =>
      match add_entry description preset with
      | inl description' => describe_all description' todo'
      | inr f => inr f
      end
  end.

Definition presets_embed (description : string) : embed :=
  Embed "Stocks: Screener Custom Presets" description.

Definition error_embed (e : failure) : embed :=
  Embed "ERROR Stocks: Screener Presets" (failure_text e).

Definition presets_custom_command (s : chat) : chat :=
  let s := if DEBUG then log "!stocks.scr.presets" s else s in
  match describe_all "" presets with
  | inl description => snd (send (presets_embed description) s)
  | inr e => snd (send (error_embed e) s)
  end.

End Screener.

End Presets.

(** ** Notions used to state further properties *)

Module Notions.

Import PyStr Menu DueDiligence.

(** The remaining arguments after the command name: a [--] right
    after the name is absorbed by the parser. *)
Definition arguments (tokens : list string) : list string :=
  match tokens with
  | dd :: rest => if String.eqb dd "--" then rest else tokens
  | [] => tokens
  end.

(** The first segment of a path and the segments to enqueue. *)
Definition first_segment (line : string) : string := hd "" (split_on "/" line).
Definition later_segments (line : string) : list string :=
  filter truthy (tl (split_on "/" line)).

(** Every character of [s] satisfies [p]. *)
Fixpoint all_chars (p : ascii -> bool) (s : string) : bool :=
  match s with
  | EmptyString => true
  | String c s' => p c && all_chars p s'
  end.

(** A command name as the parser sees it alone: not empty, made of
    ASCII characters other than whitespace and slash, and not an
    option. *)
Definition plain_char (c : ascii) : bool :=
  negb (is_space c) && negb (Ascii.eqb c "/") && (nat_of_ascii c <? 128).

Definition plain_name (x : string) : bool :=
  truthy x
  && all_chars plain_char x
  && negb (String.eqb x "--")
  && negb (Argparse.option_like x).

(** A reaction of the bot with one of the emoji of the menu. *)
Definition menu_reaction (r : string * user) : bool :=
  user_eqb (snd r) BotUser && mem (fst r) emoji_list.

(** The chat when the menu waits for a reaction. *)
Definition waiting (DEBUG : bool) (ticker : string) (s : chat) : chat :=
  add_reactions (List.length (channel s))
    (snd (send (menu_embed ticker)
               (if DEBUG then log "!stocks.dd" s else s))).

Definition selected_note (DEBUG : bool) (n : nat) (s : chat) : chat :=
  if DEBUG then log ("Reaction selected: " +++ String (ascii_of_nat (48 + n)) "") s
  else s.

(** Preset files of the concrete examples: [growth] and [value] have
    a description, [empty] has none, [broken] cannot be decoded after
    its first line, no other file exists. *)
Definition sample_files (path : string) : Presets.opened :=
  if String.eqb path "presets/growth.ini" then
    Presets.Lines ["# Author: someone" +++ nl;
                   "# Description: Large caps that grow" +++ nl;
                   "[General]" +++ nl;
                   "Market Cap. = +Large (over $10bln)" +++ nl]
  else if String.eqb path "presets/value.ini" then
    Presets.Lines ["# Description: Cheap #stocks" +++ nl;
                   of_bytes [194; 160] +++ "[General] " +++ nl;
                   "P/E = Low (<15)" +++ nl]
  else if String.eqb path "presets/empty.ini" then
    Presets.Lines ["[General]" +++ nl]
  else if String.eqb path "presets/broken.ini" then
    Presets.Broken ["# Description: Unreadable" +++ nl]
                   "'utf-8' codec can't decode byte 0xff"
  else Presets.OSError "[Errno 2] No such file or directory".

End Notions.

(** * Properties of the menu controllers *)

Import PyStr Menu.

(** ** Splitting and joining *)

Lemma split_by_cons p s : exists w ws, split_by p s = w :: ws.
Proof.
  destruct s as [|ch s]; simpl.
  - now exists "", [].
  - destruct (p ch); [now exists "", (split_by p s)|].
    destruct (split_by p s) as [|w ws]; [now exists (String ch ""), []|].
    now exists (String ch w), ws.
Qed.

(** Joining the pieces with the separator gives the string back. *)
Lemma join_split_on sep s : join (String sep "") (split_on sep s) = s.
Proof.
  unfold join, split_on. induction s as [|ch s IH]; [reflexivity|].
  simpl. destruct (Ascii.eqb_spec ch sep) as [->|Hne].
  - destruct (split_by_cons (fun c => Ascii.eqb c sep) s) as [w [ws E]].
    rewrite E in IH |- *. simpl. simpl in IH. now rewrite IH.
  - destruct (split_by_cons (fun c => Ascii.eqb c sep) s) as [w [ws E]].
    rewrite E in IH |- *. destruct ws as [|w' ws]; simpl in *; now rewrite IH.
Qed.


Section QueueFacts.

Variable Frame : Type.
Implicit Types (c : controller Frame) (q : list string).

Lemma queue_set_queue q c : queue (set_queue q c) = q.
Proof. reflexivity. Qed.

Lemma set_queue_twice q q' c : set_queue q (set_queue q' c) = set_queue q c.
Proof. reflexivity. Qed.

Lemma set_queue_same c : set_queue (queue c) c = c.
Proof. destruct c; reflexivity. Qed.

Lemma insert0_set_queue x q c : insert0 x (set_queue q c) = set_queue (x :: q) c.
Proof. reflexivity. Qed.

Lemma insert0_as_set_queue x c : insert0 x c = set_queue (x :: queue c) c.
Proof. reflexivity. Qed.

(** Inserting at the front the items of a list, last item first,
    leaves them in the order of the list. *)
Lemma insert_reversed (l : list string) : forall c,
  fold_left (fun c cmd => if truthy cmd then insert0 cmd c else c) l c
  = set_queue (rev (filter truthy l) ++ queue c) c.
Proof.
  induction l as [|x l IH]; intros c; simpl.
  - symmetry; apply set_queue_same.
  - rewrite IH. destruct (truthy x); simpl.
    + rewrite <- app_assoc. reflexivity.
    + reflexivity.
Qed.

Lemma filter_truthy_rev (l : list string) :
  rev (filter truthy (rev l)) = filter truthy l.
Proof.
  induction l as [|x l IH]; simpl; [reflexivity|].
  rewrite filter_app, rev_app_distr, IH. simpl.
  destruct (truthy x); reflexivity.
Qed.

Lemma enqueue_actions_spec (rest : list string) c :
  enqueue_actions rest c = set_queue (filter truthy rest ++ queue c) c.
Proof.
  unfold enqueue_actions. rewrite insert_reversed, filter_truthy_rev.
  reflexivity.
Qed.

End QueueFacts.

Section SwitchFacts.

Variable Frame : Type.
Variable collaborator :
  menu_id -> string -> list string -> controller Frame -> world ->
  outcome Frame.
Variable enter_fmp : controller Frame -> world -> menu_result.

Implicit Types (m : menu_id) (c : controller Frame) (w : world).

Local Abbreviation switch := (Menu.switch collaborator enter_fmp).
Local Abbreviation dispatch := (Menu.dispatch collaborator enter_fmp).

(** C10.  For the empty input, [switch] of every controller returns
    with the controller, hence the queue and the menu context,
    unchanged; no command is resolved and no handler is called, the
    only effect is the blank line that is printed. *)
Theorem switch_empty_input_is_noop m c w :
  switch m "" c w = Returned c (print "" w)
  /\ print "" w = World (stdin w) (stdout w ++ [Print nl]).
Proof. split; reflexivity. Qed.

(** C8.  The redirection of the short names is idempotent: [..] and
    [q] go to [quit], [?] and [h] to [help], [r] to [reset], and
    redirecting an already redirected name changes nothing; [quit],
    [help] and [reset] are fixed points. *)
Theorem resolve_alias_idempotent :
  (forall cmd, resolve_alias (resolve_alias cmd) = resolve_alias cmd)
  /\ map resolve_alias [".."; "q"; "?"; "h"; "r"]
     = ["quit"; "quit"; "help"; "help"; "reset"]
  /\ map resolve_alias ["quit"; "help"; "reset"] = ["quit"; "help"; "reset"].
Proof.
  split; [|split; reflexivity].
  intros cmd.
  assert (H : resolve_alias cmd = "quit" \/ resolve_alias cmd = "help"
              \/ resolve_alias cmd = "reset" \/ resolve_alias cmd = cmd).
  { unfold resolve_alias.
    destruct (truthy cmd); [|now repeat right].
    destruct (mem cmd [".."; "q"]); [now left|].
    destruct (mem cmd ["?"; "h"]); [now right; left|].
    destruct (String.eqb cmd "r"); [now right; right; left|now repeat right]. }
  destruct H as [H|[H|[H|H]]]; rewrite H; solve [reflexivity | exact H].
Qed.

(** Every name outside the five short ones is left as it is. *)
Lemma resolve_alias_other cmd :
  mem cmd [".."; "q"; "?"; "h"; "r"] = false -> resolve_alias cmd = cmd.
Proof.
  unfold resolve_alias, mem; simpl. intros H.
  repeat (apply orb_false_elim in H; destruct H as [? H]).
  destruct (truthy cmd); [|reflexivity].
  repeat match goal with E : String.eqb _ _ = false |- _ => rewrite E; clear E end.
  reflexivity.
Qed.

Lemma dispatch_home m c w : dispatch m "home" c w = call_home m c w.
Proof. destruct m; reflexivity. Qed.

Lemma call_home_queue m c w :
  call_home m c w = Returned (set_queue (repeat "quit" (depth m) ++ queue c) c) w.
Proof. destruct m; reflexivity. Qed.

(** C5.  [home] prepends one [quit] per nesting level of the menu, two
    from [fa], [qa] and [pred] and three from [fmp], and changes
    nothing else: the rest of the queue, the menu context and the
    terminal stay as they were. *)
Theorem call_home_unwinds m c w :
  call_home m c w
  = Returned (set_queue (repeat "quit" (depth m) ++ queue c) c) w
  /\ switch m "home" c w = call_home m c w
  /\ map depth [FA; QA; PRED; FMP] = [2; 2; 2; 3].
Proof.
  split; [apply call_home_queue|].
  split; [destruct m; reflexivity | reflexivity].
Qed.

(** C4 (amended).  [reset] prepends, front to back, one [quit] per
    nesting level, [reset], [stocks], [load t] for the current ticker
    [t] (omitted when no ticker is loaded) and the menus to enter
    again: the menu's own name from [fa], [qa] and [pred], and [fa]
    then [fmp] from [fmp]; nothing else changes. *)
Theorem call_reset_prepends m c w :
  call_reset m c w
  = Returned (set_queue (repeat "quit" (depth m) ++ ["reset"; "stocks"]
                           ++ load_entry (ticker c) ++ reentry_path m
                           ++ queue c) c) w.
Proof.
  destruct c as [tk st iv sfx tg sk q].
  destruct m; unfold call_reset, insert_load, load_entry; simpl;
    destruct (truthy tk); reflexivity.
Qed.

End SwitchFacts.

(** C4, as stated, fails for [fmp]: with AAPL loaded its [reset] puts
    [fa] between the reload and [fmp]. *)
Lemma call_reset_fmp_enters_fa_first :
  call_reset FMP (aapl []) silent
  <> Returned (set_queue (claimed_reset FMP "AAPL" ++ []) (aapl [])) silent.
Proof. vm_compute. discriminate. Qed.

Section LoopFacts.

Variable Frame : Type.
Variable collaborator :
  menu_id -> string -> list string -> controller Frame -> world ->
  outcome Frame.
Variable enter_fmp : controller Frame -> world -> menu_result.

Implicit Types (m : menu_id) (c : controller Frame) (w : world).

Local Abbreviation switch := (Menu.switch collaborator enter_fmp).
Local Abbreviation dispatch := (Menu.dispatch collaborator enter_fmp).
Local Abbreviation turn := (Menu.turn collaborator enter_fmp).
Local Abbreviation menu_step := (Menu.menu_step collaborator enter_fmp).
Local Abbreviation menu_loop := (Menu.menu_loop collaborator).
Local Abbreviation menu_step_in fuel :=
  (Menu.menu_step collaborator
     (fun c' w' => Menu.menu_loop collaborator fuel FMP c' "HELP_ME" w')).

Lemma contains_nonempty (ch : ascii) s : contains ch s = true -> is_empty s = false.
Proof. destruct s; [discriminate | reflexivity]. Qed.

Lemma is_empty_true s : is_empty s = true <-> s = "".
Proof. destruct s; split; intros H; try reflexivity; discriminate. Qed.

Lemma is_empty_false s : is_empty s = false <-> s <> "".
Proof.
  destruct s; split; intros H; try reflexivity; try discriminate.
  now contradiction H.
Qed.


(** C6.  For an input with a [/] and an empty first segment, [switch]
    runs [home] in the current turn, and the other non-empty segments
    are in the queue, in their order, behind the [quit] tokens of
    [home]. *)
Theorem switch_leading_slash_goes_home m an_input c w :
  contains "/" an_input = true ->
  hd "" (split_on "/" an_input) = "" ->
  switch m an_input c w
  = call_home m (set_queue (filter truthy (tl (split_on "/" an_input))
                              ++ queue c) c) w
  /\ switch m an_input c w
     = Returned (set_queue (repeat "quit" (depth m)
                              ++ filter truthy (tl (split_on "/" an_input))
                              ++ queue c) c) w.
Proof.
  intros Hs He.
  assert (E : switch m an_input c w
              = call_home m (set_queue (filter truthy (tl (split_on "/" an_input))
                                          ++ queue c) c) w).
  { unfold Menu.switch.
    rewrite (contains_nonempty _ _ Hs), Hs.
    apply is_empty_true in He. rewrite He.
    rewrite enqueue_actions_spec. apply dispatch_home. }
  split; [exact E|].
  rewrite E, call_home_queue. reflexivity.
Qed.

(** One pass of the loop. *)
Lemma menu_loop_S fuel m c an_input w :
  menu_loop (S fuel) m c an_input w
  = match menu_step_in fuel m c an_input w with
    | Exit q w' => Exited q w'
    | Continue c' an_input' w' => menu_loop fuel m c' an_input' w'
    | Crash e w' => Crashed e w'
    | Pending => Running
    end.
Proof. reflexivity. Qed.

Lemma mem_exit_tokens head :
  In head ["q"; ".."; "quit"] -> mem head exit_tokens = true.
Proof.
  simpl. intros [H|[H|[H|[]]]]; subst; reflexivity.
Qed.

(** C2.  When the head of the queue is [q], [..] or [quit], the loop
    ends at once with the rest of the queue, empty when the token was
    alone; the token is not dispatched, the terminal only shows the
    blank line of [qa]. *)
Theorem menu_leaves_on_exit_token fuel m c an_input w head rest :
  queue c = head :: rest ->
  In head ["q"; ".."; "quit"] ->
  menu_loop (S fuel) m c an_input w = Exited rest (leaving m w).
Proof.
  intros Hq Hin. rewrite menu_loop_S. unfold Menu.menu_step.
  rewrite Hq, (mem_exit_tokens _ Hin).
  destruct rest; destruct m; reflexivity.
Qed.

Lemma menu_step_fa_laod c an_input w :
  menu_step FA (set_queue ["laod AAPL"] c) an_input w
  = Continue (set_queue ["laod AAPL"] c) "laod AAPL"
      (print (replacing_by "laod AAPL")
         (print_noend (doesnt_exist FA "laod AAPL") w)).
Proof. vm_compute. reflexivity. Qed.

(** C1 at [fa] with the line [laod AAPL] at the head of the queue: the
    closest match is [load], yet the line put back in front of the
    queue and named by the notice is the line as it was typed. *)
Theorem fa_laod_is_put_back_uncorrected c an_input w :
  candidate_line FA "laod AAPL" = Some "load AAPL"
  /\ menu_step FA (set_queue ["laod AAPL"] c) an_input w
     = Continue (set_queue ["laod AAPL"] c) "laod AAPL"
         (print (replacing_by "laod AAPL")
            (print_noend (doesnt_exist FA "laod AAPL") w)).
Proof. split; vm_compute; reflexivity. Qed.

(** In [fa], [fmp] and [pred] the line put back is always the input
    itself, whatever the match. *)
Lemma recover_fa_puts_input_back m an_input c w line :
  m <> QA ->
  candidate_line m an_input = Some line ->
  line <> an_input ->
  recover m an_input c w
  = Continue (insert0 an_input c) an_input
      (print (replacing_by an_input)
         (print_noend (doesnt_exist m an_input) w)).
Proof.
  intros Hm Hc Hne. unfold candidate_line in Hc.
  assert (E : recover m an_input c w = recover_fa m an_input c w)
    by (destruct m; [reflexivity | reflexivity | contradiction | reflexivity]).
  rewrite E. unfold recover_fa.
  destruct (Difflib.get_close_matches (name_token an_input) (CHOICES m))
    as [|similar more]; [discriminate|].
  injection Hc as Hc. rewrite Hc.
  apply String.eqb_neq in Hne. rewrite Hne. reflexivity.
Qed.

(** In [qa] the line put back and named by the notice is the
    corrected one: the match with the argument tail of the input. *)
Lemma recover_qa_puts_corrected_line_back an_input c w line :
  candidate_line QA an_input = Some line ->
  line <> an_input ->
  recover QA an_input c w
  = Continue (insert0 line c) line
      (print (replacing_by line)
         (print_noend (doesnt_exist QA an_input) w))
  /\ notices line (stdout (print (replacing_by line)
                             (print_noend (doesnt_exist QA an_input)
                                (World (stdin w) [])))) = 1.
Proof.
  intros Hc Hne. unfold candidate_line in Hc. simpl. unfold recover_qa.
  destruct (Difflib.get_close_matches (name_token an_input) (CHOICES QA))
    as [|similar more]; [discriminate|].
  injection Hc as Hc.
  split.
  - destruct (contains " " an_input).
    + rewrite Hc. apply String.eqb_neq in Hne. rewrite Hne. reflexivity.
    + rewrite Hc. reflexivity.
  - unfold notices, print, print_noend, emit; simpl.
    rewrite String.eqb_refl.
    destruct (String.eqb (doesnt_exist QA an_input)
                         (replacing_by line +++ nl)) eqn:E; [|reflexivity].
    apply String.eqb_eq in E. discriminate E.
Qed.


(** After such a pass the queue is empty, so the next pass asks the
    user for a line. *)
Lemma menu_step_after_discard m c w :
  menu_step m (set_queue [] c) "" w
  = match stdin w with
    | line :: rest =>
        turn m line (set_queue [] c) (World rest (stdout w ++ [Prompt m]))
    | [] => Crash EOFError (emit (Prompt m) w)
    end.
Proof. reflexivity. Qed.

End LoopFacts.

(** ** Where the degenerate match can come from *)

Lemma best_of_In scored : forall cur,
  In (Difflib.best_of scored cur) (cur :: scored).
Proof.
  induction scored as [|[r x] rest IH]; intros [rc xc]; simpl.
  - now left.
  - destruct (Difflib.ratio_ltb rc r
              || Difflib.ratio_eqb rc r && String.ltb xc x).
    + right. apply IH.
    + destruct (IH (rc, xc)) as [E|Hin]; [left; exact E | right; right; exact Hin].
Qed.

(** The closest match is one of the possibilities. *)
Lemma get_close_matches_In word possibilities x more :
  Difflib.get_close_matches word possibilities = x :: more ->
  In x possibilities.
Proof.
  unfold Difflib.get_close_matches.
  destruct (filter _ _) as [|first rest] eqn:F; [discriminate|].
  intros E. injection E as E _. subst x.
  pose proof (best_of_In rest first) as Hin. rewrite <- F in Hin.
  apply filter_In in Hin. destruct Hin as [Hin _].
  apply in_map_iff in Hin. destruct Hin as [y [Ey Hy]].
  rewrite <- Ey. exact Hy.
Qed.

(** The parser accepts every name of [CHOICES] typed alone. *)
Lemma bare_choice_is_parsed m x :
  In x (CHOICES m) ->
  Argparse.parse_known_args (CHOICES m) (split_ws x) = Argparse.Parsed x [].
Proof.
  destruct m; simpl; intros H;
    repeat (destruct H as [<-|H]; [reflexivity|]); contradiction.
Qed.

(** An input without a space that is its own closest match is a name
    of [CHOICES]: the parser accepts it, so [switch] can only end in
    [SystemExit] there if the handler of that command does. *)
Lemma bare_own_match_is_dispatched (Frame : Type) collaborator enter_fmp m
      an_input (c : controller Frame) w :
  candidate_line m an_input = Some an_input ->
  contains " " an_input = false ->
  switch collaborator enter_fmp m an_input c w
  = call collaborator enter_fmp m (resolve_alias an_input) [] c w.
Proof.
  intros Hc Hs. unfold candidate_line, name_token in Hc. rewrite Hs in Hc.
  destruct (Difflib.get_close_matches an_input (CHOICES m))
    as [|similar more] eqn:G; [discriminate|].
  injection Hc as Hc. subst similar.
  apply get_close_matches_In in G.
  assert (P := bare_choice_is_parsed m an_input G).
  assert (N : is_empty an_input = false /\ contains "/" an_input = false).
  { clear P. destruct m; simpl in G;
      repeat (destruct G as [<-|G]; [split; reflexivity|]); contradiction. }
  destruct N as [N1 N2].
  unfold switch. rewrite N1, N2. unfold dispatch. rewrite P. reflexivity.
Qed.

(** The same pass starts again from the state it ends in: with this
    line at the head of the queue the [fa] loop never ends. *)
Lemma fa_laod_never_ends (Frame : Type) collaborator fuel :
  forall (c : controller Frame) an_input w,
    menu_loop collaborator fuel FA (set_queue ["laod AAPL"] c) an_input w
    = Running.
Proof.
  induction fuel as [|fuel IH]; intros c an_input w; [reflexivity|].
  rewrite menu_loop_S, menu_step_fa_laod. apply IH.
Qed.


(** * Properties of the reaction menu *)

Import DueDiligence.

Section ReactionMenu.

Variable DEBUG : bool.
Variable command : nat -> string -> chat -> result.

Lemma wait_for_nothing events :
  (forall ev, In ev events -> check ev = false) -> wait_for events = None.
Proof.
  unfold wait_for. induction events as [|ev events IH]; intros H; simpl.
  - reflexivity.
  - rewrite (H ev (or_introl eq_refl)). apply IH.
    intros ev' Hin. apply H. now right.
Qed.

Lemma modify_last f (l : list message) x :
  modify (List.length l) f (l ++ [x]) = l ++ [f x].
Proof. induction l as [|y l IH]; simpl; [reflexivity | now rewrite IH]. Qed.

Lemma channel_debug line s : channel (debug DEBUG line s) = channel s.
Proof. unfold debug. destruct DEBUG; reflexivity. Qed.

(** C9.  When no reaction accepted by [check] arrives before the
    timeout, the command ends normally: the timeout is caught, the
    reactions the menu added to its message are all removed and the
    timeout notice is sent after the menu. *)
Theorem timeout_cleans_up ticker events s :
  (forall ev, In ev events -> check ev = false) ->
  due_diligence DEBUG command ticker events s
  = Done (Chat (channel s ++ [Message (menu_embed ticker) [];
                              Message timeout_embed []])
               (console (debug DEBUG "!stocks.dd" s))).
Proof.
  intros H. unfold due_diligence, send.
  rewrite (wait_for_nothing _ H).
  unfold on_timeout, send, add_reactions, remove_reactions,
    add_reaction, remove_reaction.
  rewrite channel_debug.
  cbn [fold_left emoji_list channel console].
  repeat rewrite modify_last.
  cbn [content reactions snd channel console].
  rewrite <- app_assoc. reflexivity.
Qed.

End ReactionMenu.

(** * Concrete runs *)

Lemma menu_leaves_on_exit_token_witness :
  queue (aapl ["quit"; "load TSLA"]) = "quit" :: ["load TSLA"]
  /\ In "quit" ["q"; ".."; "quit"]
  /\ menu_loop idle 1 FA (aapl ["quit"; "load TSLA"]) "HELP_ME" silent
     = Exited ["load TSLA"] (leaving FA silent).
Proof.
  split; [reflexivity|]. split; [simpl; auto|].
  apply (menu_leaves_on_exit_token unit idle 0 FA (aapl ["quit"; "load TSLA"])
           "HELP_ME" silent "quit" ["load TSLA"]).
  - reflexivity.
  - simpl; auto.
Defined.


Lemma switch_leading_slash_goes_home_witness :
  contains "/" "/x" = true
  /\ hd "" (split_on "/" "/x") = ""
  /\ switch idle no_submenu FA "/x" (aapl []) silent
     = call_home FA (aapl ["x"]) silent
  /\ switch idle no_submenu FA "/x" (aapl []) silent
     = Returned (aapl ["quit"; "quit"; "x"]) silent.
Proof.
  split; [reflexivity|]. split; [reflexivity|].
  apply (switch_leading_slash_goes_home unit idle no_submenu FA "/x"
           (aapl []) silent); reflexivity.
Defined.


Lemma timeout_cleans_up_witness :
  (forall ev, In ev [(keycap 0, Member 7); ("x", Author)] -> check ev = false)
  /\ due_diligence true (fun _ _ s => Done s) "AAPL"
       [(keycap 0, Member 7); ("x", Author)] (Chat [] [])
     = Done (Chat [Message (menu_embed "AAPL") []; Message timeout_embed []]
                  ["!stocks.dd"]).
Proof.
  assert (H : forall ev, In ev [(keycap 0, Member 7); ("x", Author)] ->
                         check ev = false).
  { intros ev [E|[E|[]]]; subst ev; reflexivity. }
  split; [exact H|].
  apply (timeout_cleans_up true (fun _ _ s => Done s) "AAPL"
           [(keycap 0, Member 7); ("x", Author)] (Chat [] []) H).
Defined.

(** The first segment of [a/b/c] is handed to the parser while [b] and
    [c] already wait in the queue; [a] is no command of [fa]. *)
Example switch_a_b_c :
  switch idle no_submenu FA "a/b/c" (aapl []) silent
  = Raised SystemExit (aapl ["b"; "c"]) silent.
Proof. reflexivity. Qed.

(** A typed path runs left to right: clear, help, clear, then leave. *)
Example path_runs_left_to_right :
  menu idle 5 FA (aapl []) (World ["cls/help/cls/quit"] [])
  = Exited []
      (World [] [PrintHelp FA "AAPL"; Prompt FA; Clear; PrintHelp FA "AAPL";
                 Clear]).
Proof. reflexivity. Qed.

(** [home] typed in [fmp], entered from [fa]: [fmp] consumes the first
    of its three [quit] tokens, [fa] the second, and one is left for
    the stocks menu. *)
Example home_from_fmp_unwinds :
  menu_loop idle 4 FA (aapl ["fmp"; "home"]) "HELP_ME" silent
  = Exited ["quit"] silent.
Proof. reflexivity. Qed.

(** [reset] in [fa] with AAPL loaded: [fa] leaves on the first [quit]
    and hands the rest to the stocks menu. *)
Example reset_from_fa :
  menu_loop idle 3 FA (aapl ["reset"]) "HELP_ME" silent
  = Exited ["quit"; "reset"; "stocks"; "load AAPL"; "fa"] silent.
Proof. reflexivity. Qed.

(** In [qa] the mistyped line is corrected, then run. *)
Example qa_corrects_laod :
  menu_step idle no_submenu QA (aapl ["laod AAPL"]) "HELP_ME" silent
  = Continue (aapl ["load AAPL"]) "load AAPL"
      (print (replacing_by "load AAPL")
         (print_noend (doesnt_exist QA "laod AAPL") silent)).
Proof. reflexivity. Qed.

(** * Further properties of [switch] *)

Import Notions.

(** ** Lines that start with a command name *)

Lemma append_empty_r s : s +++ "" = s.
Proof. induction s as [|ch s IH]; simpl; [reflexivity | now rewrite IH]. Qed.

Lemma all_chars_weaken (p q : ascii -> bool) s :
  (forall ch, p ch = true -> q ch = true) ->
  all_chars p s = true -> all_chars q s = true.
Proof.
  intros Hpq. induction s as [|ch s IH]; simpl; [reflexivity|].
  intros H. apply andb_prop in H. destruct H as [H1 H2].
  now rewrite (Hpq _ H1), IH.
Qed.

(** A prefix without cut points stays in front of the first piece. *)
Lemma split_by_app_plain p a s w ws :
  all_chars (fun ch => negb (p ch)) a = true ->
  split_by p s = w :: ws ->
  split_by p (a +++ s) = (a +++ w) :: ws.
Proof.
  intros Ha Hs. induction a as [|ch a IH]; simpl in *; [exact Hs|].
  apply andb_prop in Ha. destruct Ha as [Hc Ha].
  apply negb_true_iff in Hc. rewrite Hc, (IH Ha). reflexivity.
Qed.

Lemma split_by_none p s :
  all_chars (fun ch => negb (p ch)) s = true -> split_by p s = [s].
Proof.
  intros H. rewrite <- (append_empty_r s) at 1.
  rewrite (split_by_app_plain p s "" "" [] H eq_refl).
  now rewrite append_empty_r.
Qed.

Lemma contains_all_chars sep s :
  contains sep s = false <->
  all_chars (fun ch => negb (Ascii.eqb ch sep)) s = true.
Proof.
  induction s as [|ch s IH]; simpl; [tauto|].
  destruct (Ascii.eqb ch sep); simpl; [split; discriminate | exact IH].
Qed.

Lemma contains_app_plain sep a s :
  contains sep a = false -> contains sep (a +++ s) = contains sep s.
Proof.
  induction a as [|ch a IH]; simpl; [reflexivity|].
  intros H. apply orb_false_elim in H. destruct H as [H1 H2].
  now rewrite H1, IH.
Qed.

(** White space of more than one byte starts with a byte above 127:
    an ASCII character is kept as it is. *)
Lemma unispace_step a b s2 :
  unispace (String a (String b s2))
  = if two_byte_space a b then String " " (unispace s2)
    else match s2 with
         | EmptyString => String a (unispace (String b s2))
         | String c s3 =>
             if three_byte_space a b c then String " " (unispace s3)
             else String a (unispace (String b s2))
         end.
Proof. reflexivity. Qed.

Lemma no_space_starts_with_ascii a :
  (nat_of_ascii a <? 128) = true ->
  (forall b, two_byte_space a b = false)
  /\ (forall b c, three_byte_space a b c = false).
Proof.
  intros H. apply Nat.ltb_lt in H.
  assert (E : forall k, 128 <= k -> (nat_of_ascii a =? k) = false)
    by (intros k Hk; apply Nat.eqb_neq; lia).
  split; intros; unfold two_byte_space, three_byte_space; cbv zeta;
    rewrite ?E by lia; reflexivity.
Qed.

Lemma unispace_ascii a s :
  (nat_of_ascii a <? 128) = true ->
  unispace (String a s) = String a (unispace s).
Proof.
  intros H. destruct (no_space_starts_with_ascii a H) as [H2 H3].
  destruct s as [|b s2]; [reflexivity|].
  rewrite unispace_step, H2.
  destruct s2 as [|c s3]; [reflexivity|]. now rewrite H3.
Qed.

Lemma unispace_app_ascii a s :
  all_chars (fun ch => nat_of_ascii ch <? 128) a = true ->
  unispace (a +++ s) = a +++ unispace s.
Proof.
  induction a as [|ch a IH]; intros H; [reflexivity|].
  cbn [all_chars] in H. apply andb_prop in H. destruct H as [H1 H2].
  change (String ch a +++ s) with (String ch (a +++ s)).
  rewrite (unispace_ascii ch _ H1), (IH H2). reflexivity.
Qed.

Section PlainNames.

Variable x : string.
Hypothesis Hx : plain_name x = true.

Lemma plain_parts :
  truthy x = true
  /\ all_chars plain_char x = true
  /\ String.eqb x "--" = false
  /\ Argparse.option_like x = false.
Proof.
  pose proof Hx as P. unfold plain_name in P.
  apply andb_prop in P. destruct P as [P P4].
  apply andb_prop in P. destruct P as [P P3].
  apply andb_prop in P. destruct P as [P1 P2].
  repeat split; try assumption; now apply negb_true_iff.
Qed.

Lemma plain_truthy : truthy x = true.
Proof. apply plain_parts. Qed.

Lemma plain_no_space : all_chars (fun ch => negb (is_space ch)) x = true.
Proof.
  destruct plain_parts as [_ [P _]]. revert P. apply all_chars_weaken.
  intros ch E. unfold plain_char in E.
  apply andb_prop in E. destruct E as [E _]. now apply andb_prop in E.
Qed.

Lemma plain_no_slash : contains "/" x = false.
Proof.
  apply contains_all_chars.
  destruct plain_parts as [_ [P _]]. revert P. apply all_chars_weaken.
  intros ch E. unfold plain_char in E.
  apply andb_prop in E. destruct E as [E _]. now apply andb_prop in E.
Qed.

Lemma plain_ascii : all_chars (fun ch => nat_of_ascii ch <? 128) x = true.
Proof.
  destruct plain_parts as [_ [P _]]. revert P. apply all_chars_weaken.
  intros ch E. unfold plain_char in E. now apply andb_prop in E.
Qed.

Lemma plain_not_option :
  String.eqb x "--" = false /\ Argparse.option_like x = false.
Proof. destruct plain_parts as [_ [_ P]]. exact P. Qed.

Lemma plain_is_empty_app s : is_empty (x +++ s) = false.
Proof.
  pose proof plain_truthy as H. destruct x; [discriminate | reflexivity].
Qed.

(** The tokens of a line that starts with the name and a space. *)
Lemma split_ws_named tail :
  split_ws (x +++ " " +++ tail) = x :: split_ws tail.
Proof.
  unfold split_ws.
  rewrite (unispace_app_ascii x (" " +++ tail) plain_ascii).
  change (" " +++ tail) with (String " " tail).
  rewrite (unispace_ascii " " tail eq_refl).
  rewrite (split_by_app_plain is_space x (String " " (unispace tail)) ""
             (split_by is_space (unispace tail)) plain_no_space eq_refl).
  rewrite append_empty_r. simpl. now rewrite plain_truthy.
Qed.

(** The tokens of the name alone. *)
Lemma split_ws_plain : split_ws x = [x].
Proof.
  unfold split_ws. rewrite <- (append_empty_r x) at 1.
  rewrite (unispace_app_ascii x "" plain_ascii).
  change (unispace "") with "".
  rewrite (split_by_app_plain is_space x "" "" [] plain_no_space eq_refl).
  rewrite append_empty_r. simpl. now rewrite plain_truthy.
Qed.

(** Its path segments. *)
Lemma split_on_slash_named tail w ws :
  split_on "/" tail = w :: ws ->
  split_on "/" (x +++ " " +++ tail) = (x +++ " " +++ w) :: ws.
Proof.
  intros E. unfold split_on in *.
  apply split_by_app_plain.
  - apply contains_all_chars, plain_no_slash.
  - simpl. now rewrite E.
Qed.

Lemma contains_slash_named tail :
  contains "/" (x +++ " " +++ tail) = contains "/" tail.
Proof. rewrite (contains_app_plain _ _ _ plain_no_slash). reflexivity. Qed.

(** The parser on tokens that start with the name. *)
Lemma parse_named choices tokens :
  mem x choices = true ->
  Argparse.parse_known_args choices (x :: tokens)
  = Argparse.Parsed x (arguments tokens).
Proof.
  intros Hm. destruct plain_not_option as [H1 H2].
  unfold Argparse.parse_known_args. simpl.
  rewrite H1, H2. unfold Argparse.take_cmd. rewrite Hm. simpl.
  destruct tokens as [|dd rest]; [reflexivity|].
  simpl. destruct (String.eqb dd "--"); reflexivity.
Qed.

End PlainNames.

(** Every name of [CHOICES] is plain. *)
Lemma choices_are_plain m x : In x (CHOICES m) -> plain_name x = true.
Proof.
  assert (H : forallb plain_name (CHOICES m) = true)
    by (destruct m; vm_compute; reflexivity).
  intros Hin. exact (proj1 (forallb_forall _ _) H x Hin).
Qed.

Lemma mem_In x l : mem x l = true <-> In x l.
Proof.
  unfold mem. rewrite existsb_exists. split.
  - intros [y [Hy E]]. apply String.eqb_eq in E. now subst.
  - intros H. exists x. split; [exact H | apply String.eqb_refl].
Qed.

Section NamedLines.

Variable Frame : Type.
Variable collaborator :
  menu_id -> string -> list string -> controller Frame -> world ->
  outcome Frame.
Variable enter_fmp : controller Frame -> world -> menu_result.

Implicit Types (m : menu_id) (c : controller Frame) (w : world).

Local Abbreviation switch := (Menu.switch collaborator enter_fmp).
Local Abbreviation dispatch := (Menu.dispatch collaborator enter_fmp).
Local Abbreviation call := (Menu.call collaborator enter_fmp).

Lemma dispatch_named m x tail c w :
  In x (CHOICES m) ->
  dispatch m (x +++ " " +++ tail) c w
  = call m (resolve_alias x) (arguments (split_ws tail)) c w.
Proof.
  intros Hin. pose proof (choices_are_plain m x Hin) as Hp.
  unfold Menu.dispatch.
  rewrite (split_ws_named x Hp), (parse_named x Hp).
  - reflexivity.
  - now apply mem_In.
Qed.

Lemma switch_bare m x c w :
  In x (CHOICES m) -> switch m x c w = call m (resolve_alias x) [] c w.
Proof.
  intros Hin. pose proof (choices_are_plain m x Hin) as Hp.
  unfold Menu.switch.
  pose proof (plain_is_empty_app x Hp "") as E. rewrite append_empty_r in E.
  rewrite E, (plain_no_slash x Hp).
  unfold Menu.dispatch. rewrite (bare_choice_is_parsed m x Hin). reflexivity.
Qed.

(** A line made of a name of [CHOICES], a space and anything: the name
    is the command, the other tokens of the first path segment are its
    arguments, and the later segments are put in front of the queue. *)
Lemma switch_named m x tail c w :
  In x (CHOICES m) ->
  switch m (x +++ " " +++ tail) c w
  = call m (resolve_alias x) (arguments (split_ws (first_segment tail)))
         (set_queue (later_segments tail ++ queue c) c) w.
Proof.
  intros Hin. pose proof (choices_are_plain m x Hin) as Hp.
  unfold Menu.switch, first_segment, later_segments.
  rewrite (plain_is_empty_app x Hp), (contains_slash_named x Hp).
  destruct (contains "/" tail) eqn:Hs.
  - destruct (split_by_cons (fun ch => Ascii.eqb ch "/") tail) as [seg [segs E]].
    fold (split_on "/" tail) in E.
    rewrite (split_on_slash_named x Hp tail seg segs E), E. simpl hd. simpl tl.
    rewrite (plain_is_empty_app x Hp), enqueue_actions_spec.
    now apply dispatch_named.
  - apply contains_all_chars in Hs.
    unfold split_on. rewrite (split_by_none _ _ Hs). simpl.
    rewrite set_queue_same. now apply dispatch_named.
Qed.

End NamedLines.

Lemma universal_in_choices m x : In x CHOICES_UNIVERSAL -> In x (CHOICES m).
Proof. intros H. unfold CHOICES. apply in_or_app. now left. Qed.

(** The closest match always gives a line the parser accepts. *)
Lemma candidate_line_parses m an_input line :
  candidate_line m an_input = Some line ->
  exists x tokens,
    In x (CHOICES m)
    /\ (line = x \/ exists tail, line = x +++ " " +++ tail)
    /\ split_ws line = x :: tokens.
Proof.
  unfold candidate_line. intros H.
  destruct (Difflib.get_close_matches (name_token an_input) (CHOICES m))
    as [|similar more] eqn:G; [discriminate|].
  apply get_close_matches_In in G.
  pose proof (choices_are_plain m similar G) as Hp.
  injection H as H. destruct (contains " " an_input).
  - exists similar, (split_ws (join " " (tl (split_on " " an_input)))).
    subst line. unfold with_tail. split; [exact G|]. split.
    + right. now eexists.
    + apply (split_ws_named similar Hp).
  - exists similar, []. subst line. split; [exact G|]. split; [now left|].
    apply (split_ws_plain similar Hp).
Qed.

Section SwitchMore.

Variable Frame : Type.
Variable collaborator :
  menu_id -> string -> list string -> controller Frame -> world ->
  outcome Frame.
Variable enter_fmp : controller Frame -> world -> menu_result.

Implicit Types (m : menu_id) (c : controller Frame) (w : world).

Local Abbreviation switch := (Menu.switch collaborator enter_fmp).
Local Abbreviation call := (Menu.call collaborator enter_fmp).
Local Abbreviation turn := (Menu.turn collaborator enter_fmp).

(** X1.  In every menu a short name, alone or followed by anything,
    does exactly what its long name does in the same line. *)
Theorem alias_behaves_like_target m short long tail c w :
  In (short, long)
     [("q", "quit"); ("..", "quit"); ("?", "help"); ("h", "help");
      ("r", "reset")] ->
  switch m short c w = switch m long c w
  /\ switch m (short +++ " " +++ tail) c w
     = switch m (long +++ " " +++ tail) c w.
Proof.
  intros H.
  assert (P : In short CHOICES_UNIVERSAL /\ In long CHOICES_UNIVERSAL
              /\ resolve_alias short = resolve_alias long).
  { simpl in H.
    repeat (destruct H as [H|H];
            [injection H as <- <-; simpl; repeat split; tauto|]).
    contradiction. }
  destruct P as [Hs [Hl E]].
  apply (universal_in_choices m) in Hs. apply (universal_in_choices m) in Hl.
  split.
  - rewrite (switch_bare _ _ _ m short c w Hs), (switch_bare _ _ _ m long c w Hl).
    now rewrite E.
  - rewrite (switch_named _ _ _ m short tail c w Hs),
            (switch_named _ _ _ m long tail c w Hl).
    now rewrite E.
Qed.

Lemma call_universal_any_arguments m x args c w :
  In x CHOICES_UNIVERSAL ->
  call m (resolve_alias x) args c w = call m (resolve_alias x) [] c w.
Proof.
  simpl. intros H.
  repeat (destruct H as [<-|H]; [reflexivity|]). contradiction.
Qed.

(** X2.  The universal commands ignore what follows their name: only
    the later segments of a path count, which are put in front of the
    queue before the command runs. *)
Theorem universal_commands_ignore_arguments m x tail c w :
  In x CHOICES_UNIVERSAL ->
  switch m (x +++ " " +++ tail) c w
  = switch m x (set_queue (later_segments tail ++ queue c) c) w.
Proof.
  intros H. pose proof (universal_in_choices m x H) as Hin.
  rewrite (switch_named _ _ _ m x tail c w Hin), (switch_bare _ _ _ m x _ w Hin).
  now apply call_universal_any_arguments.
Qed.


(** X4.  The [except SystemExit] clause never leaves the menu and
    never fails: the loop goes on with the same menu context, no input
    is consumed, text is only added to the terminal, and the queue is
    emptied, kept, or gets one line in front. *)
Theorem recover_keeps_the_menu_running m an_input c w :
  exists q an_input' shown,
    recover m an_input c w
    = Continue (set_queue q c) an_input'
               (World (stdin w) (stdout w ++ shown))
    /\ (q = [] \/ q = queue c \/ exists line, q = line :: queue c).
Proof.
  assert (P : forall text1 text2,
             print text2 (print_noend text1 w)
             = World (stdin w) (stdout w ++ [Print text1; Print (text2 +++ nl)])).
  { intros. unfold print, print_noend, emit. simpl.
    now rewrite <- app_assoc. }
  destruct m; unfold recover, recover_fa, recover_qa;
    match goal with
    | |- context [Difflib.get_close_matches ?a ?b] =>
        destruct (Difflib.get_close_matches a b) as [|similar more]
    end;
    repeat match goal with
    | |- context [if ?b then _ else _] => destruct b
    end;
    rewrite P;
    try (eexists _, _, _; split; [reflexivity | now left]);
    try (eexists _, _, _; split;
         [unfold insert0; reflexivity | right; right; now eexists]).
  eexists (queue c), _, _. rewrite set_queue_same.
  split; [reflexivity | right; now left].
Qed.

(** X5.  A path whose first segment the parser rejects, without a
    close match for the line: [fa], [fmp] and [pred] drop the later
    segments with the whole queue, [qa] keeps them in front of the
    queue and runs them next. *)
Theorem rejected_path_without_match m an_input c w :
  contains "/" an_input = true ->
  first_segment an_input <> "" ->
  Argparse.parse_known_args (CHOICES m) (split_ws (first_segment an_input))
  = Argparse.SysExit ->
  candidate_line m an_input = None ->
  turn m an_input c w
  = match m with
    | QA => Continue (set_queue (later_segments an_input ++ queue c) c)
                     an_input
                     (print nl (print_noend (doesnt_exist m an_input) w))
    | _ => Continue (set_queue [] c) ""
                    (print nl (print_noend (doesnt_exist m an_input) w))
    end.
Proof.
  intros Hs Hne Hp Hc. unfold Menu.turn, Menu.switch.
  rewrite (contains_nonempty _ _ Hs), Hs.
  fold (first_segment an_input).
  apply is_empty_false in Hne. rewrite Hne.
  rewrite enqueue_actions_spec. unfold Menu.dispatch. rewrite Hp.
  unfold candidate_line in Hc.
  destruct m; unfold recover, recover_fa, recover_qa;
    destruct (Difflib.get_close_matches (name_token an_input) _);
    try discriminate; reflexivity.
Qed.

End SwitchMore.

(** * Further properties of the menu loop *)

Section LoopMore.

Variable Frame : Type.
Variable collaborator :
  menu_id -> string -> list string -> controller Frame -> world ->
  outcome Frame.

Implicit Types (m : menu_id) (c : controller Frame) (w : world).

Local Abbreviation menu_loop := (Menu.menu_loop collaborator).

(** A line the parser rejects is no exit token. *)
Lemma rejected_is_no_exit_token m line :
  Argparse.parse_known_args (CHOICES m) (split_ws line) = Argparse.SysExit ->
  mem line exit_tokens = false.
Proof.
  intros H. destruct (mem line exit_tokens) eqn:E; [|reflexivity].
  apply mem_In in E. simpl in E.
  assert (Hin : In line (CHOICES m)).
  { apply universal_in_choices. simpl.
    destruct E as [<-|[<-|[<-|[]]]]; tauto. }
  rewrite (bare_choice_is_parsed m line Hin) in H. discriminate.
Qed.

(** One pass over a rejected line with a close match, in [fa], [fmp]
    and [pred]: the line is back at the head of the queue. *)
Lemma rejected_line_comes_back enter_fmp m line cand q c an_input w :
  m <> QA ->
  line <> "" ->
  contains "/" line = false ->
  Argparse.parse_known_args (CHOICES m) (split_ws line) = Argparse.SysExit ->
  candidate_line m line = Some cand ->
  exists w',
    Menu.menu_step collaborator enter_fmp m (set_queue (line :: q) c)
                   an_input w
    = Continue (set_queue (line :: q) c) line w'.
Proof.
  intros Hm Hne Hs Hp Hc.
  assert (Hd : cand <> line).
  { intros ->. destruct (candidate_line_parses m line line Hc)
      as [x [tokens [Hin [_ E]]]].
    rewrite E in Hp.
    rewrite (parse_named x (choices_are_plain m x Hin)) in Hp;
      [discriminate | now apply mem_In]. }
  unfold Menu.menu_step. rewrite !queue_set_queue. cbv beta iota.
  rewrite (rejected_is_no_exit_token m line Hp). simpl tl.
  rewrite set_queue_twice.
  match goal with
  | |- context [Menu.turn _ _ m line ?c' ?w0] =>
      exists (print (replacing_by line) (print_noend (doesnt_exist m line) w0));
      generalize w0; intros w1
  end.
  unfold Menu.turn, Menu.switch.
  apply is_empty_false in Hne. rewrite Hne, Hs.
  unfold Menu.dispatch. rewrite Hp.
  rewrite (recover_fa_puts_input_back Frame m line _ w1 cand Hm Hc Hd).
  reflexivity.
Qed.

(** X6.  In [fa], [fmp] and [pred], a queued line that the parser
    rejects and that has a close match is put back unchanged at every
    pass: the menu never comes to an end, whatever follows in the
    queue. *)
Theorem rejected_line_with_match_never_ends fuel m line cand q :
  m <> QA ->
  line <> "" ->
  contains "/" line = false ->
  Argparse.parse_known_args (CHOICES m) (split_ws line) = Argparse.SysExit ->
  candidate_line m line = Some cand ->
  forall c an_input w,
    menu_loop fuel m (set_queue (line :: q) c) an_input w = Running.
Proof.
  intros Hm Hne Hs Hp Hc.
  induction fuel as [|fuel IH]; intros c an_input w; [reflexivity|].
  rewrite menu_loop_S.
  destruct (rejected_line_comes_back
              (fun c' w' => menu_loop fuel FMP c' "HELP_ME" w')
              m line cand q c an_input w Hm Hne Hs Hp Hc) as [w' E].
  rewrite E. apply IH.
Qed.

(** A pass with an empty queue reads a line and processes it. *)
Lemma menu_step_reads_a_line enter_fmp m c an_input line rest shown :
  queue c = [] ->
  exists shown',
    Menu.menu_step collaborator enter_fmp m c an_input
                   (World (line :: rest) shown)
    = Menu.turn collaborator enter_fmp m line c (World rest shown').
Proof.
  intros Hq. unfold Menu.menu_step. rewrite Hq.
  destruct (String.eqb an_input "HELP_ME"); eexists; reflexivity.
Qed.

Lemma call_quit_result enter_fmp m c w :
  exists w',
    Menu.call collaborator enter_fmp m "quit" [] c w
    = Returned (set_queue ("quit" :: queue c) c) w'
    /\ stdin w' = stdin w.
Proof. destruct m; eexists; split; reflexivity. Qed.

(** X7.  Typed at the prompt of a menu with an empty queue, [quit],
    [q] or [..] leaves the menu with an empty queue after reading that
    one line. *)
Theorem typed_quit_leaves_the_menu fuel m c an_input line rest shown :
  queue c = [] ->
  In line ["quit"; "q"; ".."] ->
  exists shown',
    menu_loop (S (S fuel)) m c an_input (World (line :: rest) shown)
    = Exited [] (World rest shown').
Proof.
  intros Hq Hin.
  assert (Hc : In line (CHOICES m) /\ resolve_alias line = "quit").
  { split; [apply universal_in_choices|];
      simpl in Hin; destruct Hin as [<-|[<-|[<-|[]]]]; simpl; tauto. }
  destruct Hc as [Hc Hr].
  rewrite menu_loop_S.
  destruct (menu_step_reads_a_line
              (fun c' w' => menu_loop (S fuel) FMP c' "HELP_ME" w')
              m c an_input line rest shown Hq) as [shown1 E].
  rewrite E. unfold Menu.turn.
  rewrite (switch_bare _ _ _ m line c _ Hc), Hr.
  destruct (call_quit_result
              (fun c' w' => menu_loop (S fuel) FMP c' "HELP_ME" w')
              m c (World rest shown1)) as [[input2 shown2] [E1 E2]].
  rewrite E1. simpl in E2. subst input2. rewrite Hq.
  rewrite menu_loop_S. unfold Menu.menu_step. rewrite queue_set_queue.
  destruct m; eexists; reflexivity.
Qed.

(** X8.  [home] and [exit] at the head of the queue: the menu runs the
    command and is left at the next pass; the parent gets the [quit]
    tokens still needed, one per level above for [home] and one more
    for [exit], followed by the rest of the queue. *)
Theorem queued_home_and_exit_unwind fuel m q c an_input w :
  menu_loop (S (S fuel)) m (set_queue ("home" :: q) c) an_input w
  = Exited (repeat "quit" (depth m - 1) ++ q) (leaving m w)
  /\ menu_loop (S (S fuel)) m (set_queue ("exit" :: q) c) an_input w
     = Exited (repeat "quit" (depth m) ++ q) (leaving m w).
Proof. split; destruct m; reflexivity. Qed.

(** X9.  [reset] or [r] at the head of the queue: the menu is left at
    the next pass and hands to its parent the rest of the unwinding,
    the reload of the current ticker and the way back into the menu,
    followed by the rest of the queue. *)
Theorem queued_reset_hands_over_the_reload fuel m line q c an_input w :
  In line ["reset"; "r"] ->
  menu_loop (S (S fuel)) m (set_queue (line :: q) c) an_input w
  = Exited (repeat "quit" (depth m - 1) ++ ["reset"; "stocks"]
              ++ load_entry (ticker c) ++ reentry_path m ++ q)
           (leaving m w).
Proof.
  intros [<-|[<-|[]]]; destruct c as [tk st iv sfx tg sk q0];
    destruct m; rewrite menu_loop_S; unfold Menu.menu_step; simpl;
    unfold Menu.turn; simpl; unfold call_reset, insert_load, load_entry;
    simpl; destruct (truthy tk); reflexivity.
Qed.

(** X10.  Menu composition: [fmp], entered from [fa] with commands
    still queued, runs them with the ticker of [fa]; when [home] or
    [reset] unwinds it, [fa] takes the rest of the queue and is left in
    turn, with one [quit] less for the stocks menu. *)
Theorem fmp_unwinds_through_fa fuel q c an_input w :
  menu_loop (S (S (S fuel))) FA (set_queue ("fmp" :: "home" :: q) c) an_input w
  = Exited ("quit" :: q) w
  /\ menu_loop (S (S (S fuel))) FA (set_queue ("fmp" :: "reset" :: q) c)
               an_input w
     = Exited (["quit"; "reset"; "stocks"] ++ load_entry (ticker c)
                 ++ ["fa"; "fmp"] ++ q) w.
Proof.
  split; [reflexivity|].
  destruct c as [tk st iv sfx tg sk q0].
  rewrite menu_loop_S. unfold Menu.menu_step. simpl.
  unfold Menu.turn. simpl. unfold call_fmp. simpl.
  unfold Menu.menu_step. simpl. unfold Menu.turn. simpl.
  unfold call_reset, insert_load, load_entry. simpl.
  destruct (truthy tk); reflexivity.
Qed.

End LoopMore.

(** * Further properties of the reaction menu *)

Lemma modify_modify i (f g : message -> message) l :
  modify i f (modify i g l) = modify i (fun msg => f (g msg)) l.
Proof.
  revert i. induction l as [|x l IH]; intros [|i]; simpl;
    try reflexivity. now rewrite IH.
Qed.

Lemma modify_ext i (f g : message -> message) l :
  (forall msg, f msg = g msg) -> modify i f l = modify i g l.
Proof.
  intros E. revert i. induction l as [|x l IH]; intros [|i]; simpl;
    try reflexivity; [now rewrite E | now rewrite IH].
Qed.

Lemma filter_filter {A} (p q : A -> bool) l :
  filter p (filter q l) = filter (fun x => q x && p x) l.
Proof.
  induction l as [|x l IH]; simpl; [reflexivity|].
  destruct (q x); simpl; [destruct (p x)|]; now rewrite IH.
Qed.

Lemma not_menu_reaction r :
  negb (same_reaction r (keycap 0, BotUser))
  && negb (same_reaction r (keycap 1, BotUser))
  && negb (same_reaction r (keycap 2, BotUser))
  && negb (same_reaction r (keycap 3, BotUser))
  && negb (same_reaction r (keycap 4, BotUser))
  && negb (same_reaction r (keycap 5, BotUser))
  && negb (same_reaction r (keycap 6, BotUser))
  = negb (menu_reaction r).
Proof.
  unfold same_reaction, menu_reaction, mem, emoji_list. simpl.
  destruct (user_eqb (snd r) BotUser);
    destruct (String.eqb (fst r) (keycap 0));
    destruct (String.eqb (fst r) (keycap 1));
    destruct (String.eqb (fst r) (keycap 2));
    destruct (String.eqb (fst r) (keycap 3));
    destruct (String.eqb (fst r) (keycap 4));
    destruct (String.eqb (fst r) (keycap 5));
    destruct (String.eqb (fst r) (keycap 6)); reflexivity.
Qed.

(** X11.  The cleanup of the menu removes from the menu message the
    reactions of the bot with the seven emoji of the menu and nothing
    else: reactions of members, other reactions of the bot, the other
    messages and the console stay as they are. *)
Theorem remove_reactions_only_the_bots_menu_reactions msg s :
  remove_reactions msg s
  = Chat (modify msg
            (fun m => Message (content m)
                        (filter (fun r => negb (menu_reaction r))
                                (reactions m)))
            (channel s))
         (console s).
Proof.
  unfold remove_reactions, remove_reaction, emoji_list.
  cbn [fold_left channel console].
  rewrite !modify_modify. f_equal.
  apply modify_ext. intros m. cbn [content reactions].
  rewrite !filter_filter. f_equal.
  apply filter_ext. intros r. rewrite <- not_menu_reaction.
  now rewrite !andb_assoc.
Qed.

Lemma wait_for_first_accepted pre ev post :
  (forall ev', In ev' pre -> check ev' = false) ->
  check ev = true ->
  wait_for (pre ++ ev :: post) = Some ev.
Proof.
  unfold wait_for. intros Hpre Hev.
  induction pre as [|ev' pre IH]; simpl.
  - now rewrite Hev.
  - rewrite (Hpre ev' (or_introl eq_refl)). apply IH.
    intros ev'' Hin. apply Hpre. now right.
Qed.

Lemma selected_runs_the_entry DEBUG command n ticker s :
  n < 7 ->
  selected DEBUG command (keycap n) 0 emoji_list ticker s
  = command n ticker (selected_note DEBUG n s).
Proof.
  intros Hn.
  do 7 (destruct n as [|n]; [reflexivity|]). lia.
Qed.

(** X12.  The command run is the one at the position of the first
    reaction of the author with an emoji of the menu; reactions of other
    members and other emoji before it are passed over.  When the command
    returns the reactions are cleaned up; when it times out the timeout
    clause runs; any other failure goes up with the reactions left on
    the message. *)
Theorem author_reaction_selects_the_command DEBUG command ticker pre n post s :
  n < 7 ->
  (forall ev, In ev pre -> check ev = false) ->
  due_diligence DEBUG command ticker (pre ++ (keycap n, Author) :: post) s
  = match command n ticker (selected_note DEBUG n (waiting DEBUG ticker s)) with
    | Done s' => Done (remove_reactions (List.length (channel s)) s')
    | Failed TimeoutError s' => on_timeout (List.length (channel s)) s'
    | Failed e s' => Failed e s'
    end.
Proof.
  intros Hn Hpre.
  assert (Hc : check (keycap n, Author) = true)
    by (do 7 (destruct n as [|n]; [reflexivity|]); lia).
  unfold due_diligence, waiting, selected_note.
  rewrite (wait_for_first_accepted pre _ post Hpre Hc).
  destruct DEBUG; unfold debug, send; cbn [fst snd channel console log];
    rewrite (selected_runs_the_entry _ command n ticker _ Hn);
    reflexivity.
Qed.

Lemma author_reaction_selects_the_command_witness :
  3 < 7
  /\ (forall ev, In ev [(keycap 3, Member 1); ("x", Author)] -> check ev = false)
  /\ due_diligence false (fun _ _ s => Done s) "AAPL"
       ([(keycap 3, Member 1); ("x", Author)] ++ (keycap 3, Author) :: [])
       (Chat [] [])
     = Done (Chat [Message (menu_embed "AAPL") []] []).
Proof.
  assert (H : forall ev, In ev [(keycap 3, Member 1); ("x", Author)] ->
                         check ev = false).
  { intros ev [E|[E|[]]]; subst ev; reflexivity. }
  split; [lia|]. split; [exact H|].
  exact (author_reaction_selects_the_command false (fun _ _ s => Done s) "AAPL"
           [(keycap 3, Member 1); ("x", Author)] 3 [] (Chat [] [])
           ltac:(lia) H).
Defined.

(** * Properties of loading a ticker *)

Import Load.










Lemma default_flag_added l :
  l <> [] -> mem "-t" l = false -> mem "-h" l = false ->
  default_flag l = "-t" :: l.
Proof.
  intros Hne Ht Hh. unfold default_flag.
  destruct l; [contradiction|]. now rewrite Ht, Hh.
Qed.

Lemma default_flag_kept l :
  l = [] \/ mem "-t" l = true \/ mem "-h" l = true -> default_flag l = l.
Proof.
  intros H. unfold default_flag. destruct l as [|x l]; [reflexivity|].
  destruct H as [H|[H|H]]; [discriminate| |]; rewrite H; simpl;
    [reflexivity | now rewrite andb_false_r].
Qed.

(** Putting the default flag is idempotent. *)
Lemma default_flag_twice l : default_flag (default_flag l) = default_flag l.
Proof.
  destruct l as [|x l]; [reflexivity|].
  destruct (mem "-t" (x :: l)) eqn:Ht.
  - pose proof (default_flag_kept (x :: l) (or_intror (or_introl Ht))) as E.
    rewrite E. exact E.
  - destruct (mem "-h" (x :: l)) eqn:Hh.
    + pose proof (default_flag_kept (x :: l) (or_intror (or_intror Hh))) as E.
      rewrite E. exact E.
    + rewrite (default_flag_added (x :: l)); [|discriminate| exact Ht | exact Hh].
      apply default_flag_kept. right; left. reflexivity.
Qed.

(** X14.  The ticker flag is optional: arguments that are not empty,
    do not ask for help and have no [-t] get the flag in front, so the
    ticker alone and the ticker after its flag reach the parser as the
    same arguments. *)
Theorem ticker_flag_is_optional other_args :
  other_args <> [] ->
  mem "-t" other_args = false ->
  mem "-h" other_args = false ->
  default_flag other_args = "-t" :: other_args
  /\ default_flag ("-t" :: other_args) = default_flag other_args.
Proof.
  intros Hne Ht Hh.
  rewrite (default_flag_added other_args Hne Ht Hh).
  split; [reflexivity|].
  apply default_flag_kept. right; left. reflexivity.
Qed.

(** * Properties of the custom presets *)

Import Presets.



Section ScreenerFacts.

Variable DEBUG : bool.
Variable presets_path : string.
Variable files : string -> opened.

Local Abbreviation add_entry := (Presets.add_entry presets_path files).
Local Abbreviation describe_all := (Presets.describe_all presets_path files).

Lemma append_assoc (a b c : string) : (a +++ b) +++ c = a +++ b +++ c.
Proof. induction a as [|ch a IH]; simpl; [reflexivity | now rewrite IH]. Qed.

Lemma add_entry_from description preset :
  add_entry description preset
  = match add_entry "" preset with
    | inl e => inl (description +++ e)
    | inr f => inr f
    end.
Proof.
  unfold Presets.add_entry.
  destruct (files _) as [lines|lines text|text]; [| |reflexivity].
  - destruct (entry preset lines None); reflexivity.
  - destruct (entry preset lines (Some text)); reflexivity.
Qed.

Lemma describe_all_good todo entries : forall description,
  Forall2 (fun preset e => add_entry "" preset = inl e) todo entries ->
  describe_all description todo
  = inl (description +++ fold_right String.append "" entries).
Proof.
  intros description H. revert description.
  induction H as [|preset e todo entries He _ IH]; intros description; simpl.
  - now rewrite append_empty_r.
  - rewrite add_entry_from, He, IH. now rewrite append_assoc.
Qed.

Lemma describe_all_bad good entries bad rest f : forall description,
  Forall2 (fun preset e => add_entry "" preset = inl e) good entries ->
  add_entry "" bad = inr f ->
  describe_all description (good ++ bad :: rest) = inr f.
Proof.
  intros description H Hbad. revert description.
  induction H as [|preset e todo entries He _ IH]; intros description; simpl.
  - now rewrite add_entry_from, Hbad.
  - now rewrite add_entry_from, He, IH.
Qed.

(** X16.  When every preset file opens and has a description, one
    embed is sent with the entries of the presets in the order of the
    list. *)
Theorem presets_are_listed_in_order presets entries s :
  Forall2 (fun preset e => add_entry "" preset = inl e) presets entries ->
  presets_custom_command DEBUG presets_path presets files s
  = Chat (channel s
            ++ [Message (presets_embed (fold_right String.append "" entries)) []])
         (console (if DEBUG then log "!stocks.scr.presets" s else s)).
Proof.
  intros H. unfold presets_custom_command.
  rewrite (describe_all_good presets entries "" H). simpl.
  now destruct DEBUG.
Qed.

(** X17.  The first preset that cannot be opened or has no description
    decides the outcome: the only embed sent is the error embed with
    the text of that failure, the entries built so far are dropped and
    the presets after it are not read. *)
Theorem first_bad_preset_gives_the_error good entries bad rest f s :
  Forall2 (fun preset e => add_entry "" preset = inl e) good entries ->
  add_entry "" bad = inr f ->
  presets_custom_command DEBUG presets_path (good ++ bad :: rest) files s
  = Chat (channel s ++ [Message (error_embed f) []])
         (console (if DEBUG then log "!stocks.scr.presets" s else s)).
Proof.
  intros H Hbad. unfold presets_custom_command.
  rewrite (describe_all_bad good entries bad rest f "" H Hbad). simpl.
  now destruct DEBUG.
Qed.

End ScreenerFacts.

(** * Concrete runs of the further properties *)

Lemma alias_behaves_like_target_witness :
  In ("r", "reset")
     [("q", "quit"); ("..", "quit"); ("?", "help"); ("h", "help");
      ("r", "reset")]
  /\ switch idle no_submenu QA "r" (aapl []) silent
     = switch idle no_submenu QA "reset" (aapl []) silent
  /\ switch idle no_submenu QA ("r" +++ " " +++ "now/raw") (aapl []) silent
     = switch idle no_submenu QA ("reset" +++ " " +++ "now/raw") (aapl []) silent.
Proof.
  split; [simpl; tauto|].
  apply (alias_behaves_like_target unit idle no_submenu QA "r" "reset"
           "now/raw" (aapl []) silent).
  simpl; tauto.
Defined.

Lemma universal_commands_ignore_arguments_witness :
  In "home" CHOICES_UNIVERSAL
  /\ switch idle no_submenu FMP ("home" +++ " " +++ "sweet home/income") (aapl [])
            silent
     = switch idle no_submenu FMP "home"
              (set_queue (later_segments "sweet home/income" ++ queue (aapl []))
                         (aapl [])) silent.
Proof.
  split; [simpl; tauto|].
  apply (universal_commands_ignore_arguments unit idle no_submenu FMP "home"
           "sweet home/income" (aapl []) silent).
  simpl; tauto.
Defined.


Lemma rejected_path_without_match_witness :
  contains "/" "xyz/load AAPL" = true
  /\ first_segment "xyz/load AAPL" <> ""
  /\ Argparse.parse_known_args (CHOICES FA)
       (split_ws (first_segment "xyz/load AAPL")) = Argparse.SysExit
  /\ candidate_line FA "xyz/load AAPL" = None
  /\ turn idle no_submenu FA "xyz/load AAPL" (aapl ["income"]) silent
     = Continue (set_queue [] (aapl ["income"])) ""
         (print nl (print_noend (doesnt_exist FA "xyz/load AAPL") silent)).
Proof.
  split; [reflexivity|]. split; [discriminate|].
  split; [reflexivity|]. split; [reflexivity|].
  apply (rejected_path_without_match unit idle no_submenu FA "xyz/load AAPL"
           (aapl ["income"]) silent).
  - reflexivity.
  - discriminate.
  - reflexivity.
  - reflexivity.
Defined.

Lemma rejected_line_with_match_never_ends_witness :
  FMP <> QA
  /\ "qoute" <> ""
  /\ contains "/" "qoute" = false
  /\ Argparse.parse_known_args (CHOICES FMP) (split_ws "qoute")
     = Argparse.SysExit
  /\ candidate_line FMP "qoute" = Some "quote"
  /\ forall (c : controller unit) an_input w,
       menu_loop idle 1000 FMP (set_queue ("qoute" :: ["quit"]) c) an_input w
       = Running.
Proof.
  split; [discriminate|]. split; [discriminate|]. split; [reflexivity|].
  split; [reflexivity|]. split; [reflexivity|].
  apply (rejected_line_with_match_never_ends unit idle 1000 FMP "qoute"
           "quote" ["quit"]).
  - discriminate.
  - discriminate.
  - reflexivity.
  - reflexivity.
  - reflexivity.
Defined.

Lemma typed_quit_leaves_the_menu_witness :
  queue (aapl []) = []
  /\ In ".." ["quit"; "q"; ".."]
  /\ exists shown',
       menu_loop idle 2 PRED (aapl []) "HELP_ME" (World [".."; "load TSLA"] [])
       = Exited [] (World ["load TSLA"] shown').
Proof.
  split; [reflexivity|]. split; [simpl; tauto|].
  apply (typed_quit_leaves_the_menu unit idle 0 PRED (aapl []) "HELP_ME" ".."
           ["load TSLA"] []).
  - reflexivity.
  - simpl; tauto.
Defined.

Lemma queued_reset_hands_over_the_reload_witness :
  In "r" ["reset"; "r"]
  /\ menu_loop idle 2 QA (set_queue ("r" :: ["raw"]) (aapl [])) "HELP_ME" silent
     = Exited (repeat "quit" (depth QA - 1) ++ ["reset"; "stocks"]
                 ++ load_entry (ticker (aapl [])) ++ reentry_path QA ++ ["raw"])
              (leaving QA silent).
Proof.
  split; [simpl; tauto|].
  apply (queued_reset_hands_over_the_reload unit idle 0 QA "r" ["raw"]
           (aapl []) "HELP_ME" silent).
  simpl; tauto.
Defined.

Lemma ticker_flag_is_optional_witness :
  ["AAPL"; "-s"; "2021-01-01"] <> []
  /\ mem "-t" ["AAPL"; "-s"; "2021-01-01"] = false
  /\ mem "-h" ["AAPL"; "-s"; "2021-01-01"] = false
  /\ default_flag ["AAPL"; "-s"; "2021-01-01"]
     = "-t" :: ["AAPL"; "-s"; "2021-01-01"]
  /\ default_flag ("-t" :: ["AAPL"; "-s"; "2021-01-01"])
     = default_flag ["AAPL"; "-s"; "2021-01-01"].
Proof.
  split; [discriminate|]. split; [reflexivity|]. split; [reflexivity|].
  apply (ticker_flag_is_optional ["AAPL"; "-s"; "2021-01-01"]).
  - discriminate.
  - reflexivity.
  - reflexivity.
Defined.


Lemma presets_are_listed_in_order_witness :
  Forall2 (fun preset e => add_entry "presets/" sample_files "" preset = inl e)
          ["value"; "growth"]
          ["**value:** *Cheap stocks*" +++ nl;
           "**growth:** *Large caps that grow*" +++ nl]
  /\ presets_custom_command true "presets/" ["value"; "growth"] sample_files
       (Chat [] [])
     = Chat ([] ++ [Message
                      (presets_embed
                         (fold_right String.append ""
                            ["**value:** *Cheap stocks*" +++ nl;
                             "**growth:** *Large caps that grow*" +++ nl])) []])
            (console (if true then log "!stocks.scr.presets" (Chat [] [])
                      else Chat [] [])).
Proof.
  assert (H : Forall2
                (fun preset e =>
                   add_entry "presets/" sample_files "" preset = inl e)
                ["value"; "growth"]
                ["**value:** *Cheap stocks*" +++ nl;
                 "**growth:** *Large caps that grow*" +++ nl]).
  { repeat constructor. }
  split; [exact H|].
  apply (presets_are_listed_in_order true "presets/" sample_files
           ["value"; "growth"] _ (Chat [] []) H).
Defined.

Lemma first_bad_preset_gives_the_error_witness :
  Forall2 (fun preset e => add_entry "presets/" sample_files "" preset = inl e)
          ["growth"] ["**growth:** *Large caps that grow*" +++ nl]
  /\ add_entry "presets/" sample_files "" "broken"
     = inr (CannotRead "'utf-8' codec can't decode byte 0xff")
  /\ presets_custom_command false "presets/" (["growth"] ++ "broken" :: ["gone"])
       sample_files (Chat [] [])
     = Chat ([] ++ [Message
                      (error_embed
                         (CannotRead "'utf-8' codec can't decode byte 0xff"))
                      []])
            (console (if false then log "!stocks.scr.presets" (Chat [] [])
                      else Chat [] [])).
Proof.
  assert (H : Forall2
                (fun preset e =>
                   add_entry "presets/" sample_files "" preset = inl e)
                ["growth"] ["**growth:** *Large caps that grow*" +++ nl]).
  { repeat constructor. }
  split; [exact H|]. split; [reflexivity|].
  apply (first_bad_preset_gives_the_error false "presets/" sample_files
           ["growth"] _ "broken" ["gone"]
           (CannotRead "'utf-8' codec can't decode byte 0xff") (Chat [] []) H).
  reflexivity.
Defined.
